(** * MPP error recovery (pkg/executor/mpperr/mpp_err_recovery.go)

    A shallow embedding of the recovery handler of the MPP executor and of
    the result holder it owns, followed by the properties of the
    specification that concern them.

    Conventions.
    - Go's fixed-width integers are integers of [Z] together with the
      wrap-around of the operation that produced them ([to_uint32],
      [to_uint64], [to_int64]).
    - A pointer that may be nil is an [option].
    - The receiver of a method is passed in and the updated receiver is
      returned; a method that also returns a value returns a pair.
    - Chunks are immutable while the holder owns them. *)

From Stdlib Require Import ZArith List String Ascii Bool Lia DecimalString.
Import ListNotations.

Open Scope Z_scope.

(** ** Machine integers *)

Definition to_uint32 (z : Z) : Z := z mod 2 ^ 32.
Definition to_uint64 (z : Z) : Z := z mod 2 ^ 64.
Definition to_int64 (z : Z) : Z := (z + 2 ^ 63) mod 2 ^ 64 - 2 ^ 63.

Definition is_uint32 (z : Z) : Prop := 0 <= z < 2 ^ 32.
Definition is_uint64 (z : Z) : Prop := 0 <= z < 2 ^ 64.
Definition is_int64 (z : Z) : Prop := - 2 ^ 63 <= z < 2 ^ 63.

(** ** Errors

    Of a Go [error] only the text returned by [Error()] is observed. *)

Record error : Type := mkError { Error : string }.

Definition errors_New (msg : string) : error := mkError msg.

(** The verb [%v] applied to an unsigned integer prints it in decimal. *)
Definition fmt_v (n : Z) : string :=
  NilEmpty.string_of_uint (N.to_uint (Z.to_N n)).

(** [errors.Errorf("exceeds max recovery cnt: cur: %v, max: %v", cur, max)] *)
Definition errors_Errorf_exceeds (cur max : Z) : error :=
  mkError ("exceeds max recovery cnt: cur: " ++ fmt_v cur
           ++ ", max: " ++ fmt_v max)%string.

(** [strings.Contains(s, substr)]: [substr] occurs at some offset of [s]. *)
Fixpoint strings_Contains (s substr : string) : bool :=
  if String.prefix substr s then true
  else match s with
       | EmptyString => false
       | String _ rest => strings_Contains rest substr
       end.

Definition memLimitErrPattern : string := "Memory limit"%string.

(** ** Chunks

    [*chunk.Chunk]: the address stands for the identity of the batch, the
    other two fields for what [NumRows()] and [MemoryUsage()] return (an
    [int] and an [int64]). *)

Record Chunk : Type := mkChunk {
  chunkAddr : Z;
  NumRows : Z;
  MemoryUsage : Z
}.

(** ** Memory tracker *)

Inductive TrackerCall : Type :=
| Consume (bytes : Z)
| Detach.

(** Modelled from the spec: [memory.Tracker] is declared outside this file.
    The specification describes it as an external budget tracker exposing
    consume(signedDelta) and detach(); the model records the label and the
    limit given at creation and the calls received, oldest first. *)
Record Tracker : Type := mkTracker {
  Label : Z;
  bytesLimit : Z;
  calls : list TrackerCall
}.

Definition memory_NewTracker (label limit : Z) : Tracker :=
  mkTracker label limit [].

Definition Tracker_Consume (t : Tracker) (bytes : Z) : Tracker :=
  mkTracker (Label t) (bytesLimit t) (calls t ++ [Consume bytes]).

Definition Tracker_Detach (t : Tracker) : Tracker :=
  mkTracker (Label t) (bytesLimit t) (calls t ++ [Detach]).

(** The tracker is detached when the last call it received is [Detach]. *)
Definition detached (t : Tracker) : bool :=
  match rev (calls t) with
  | Detach :: _ => true
  | _ => false
  end.

(** ** The result holder *)

Record mppResultHolder : Type := mkHolder {
  capacity : Z;        (* uint64 *)
  cannotHold : bool;   (* true when holder is full or begin to return result *)
  curRows : Z;         (* uint64 *)
  chks : list Chunk;
  memTracker : Tracker
}.

Definition newMPPResultHolder (holderCap : Z) (parent : Tracker)
  : mppResultHolder :=
  {| capacity := holderCap;
     cannotHold := false;
     curRows := 0;
     chks := [];
     memTracker := memory_NewTracker (Label parent) 0 |}.

Definition insert (h : mppResultHolder) (chk : Chunk) : mppResultHolder :=
  let chks' := chks h ++ [chk] in
  let curRows' := to_uint64 (curRows h + to_uint64 (NumRows chk)) in
  let cannotHold' := if capacity h <=? curRows' then true else cannotHold h in
  {| capacity := capacity h;
     cannotHold := cannotHold';
     curRows := curRows';
     chks := chks';
     memTracker := Tracker_Consume (memTracker h) (MemoryUsage chk) |}.

Definition reset (h : mppResultHolder) : mppResultHolder :=
  {| capacity := capacity h;
     cannotHold := false;
     curRows := 0;
     chks := firstn 0 (chks h);
     memTracker := Tracker_Detach (memTracker h) |}.

(** ** Requests *)

Record RecoveryInfo : Type := mkInfo {
  MPPErr : option error;
  NodeCnt : Z
}.

Inductive RecoveryType : Type :=
| RecoveryTypeNull
| RecoveryTypeMemLimit.

(** ** The topology service, the handlers and the recovery handler

    [tiflashcompute.GetGlobalTopoFetcher()] is a collaborator outside this
    file.  Its state is an abstract [World]; [RecoveryAndGetTopo] is the
    call made on it, which returns a topology and possibly an error. *)

Section Recovery.

Context {World : Type} {Topo : Type}.
Variable RecoveryAndGetTopo :
  RecoveryType -> Z -> World -> (Topo * option error) * World.

(** [handlerImpl]: an interface value is its method table. *)
Record handlerImpl : Type := mkHandlerImpl {
  chooseHandlerImpl : error -> bool;
  doRecovery : RecoveryInfo -> World -> option error * World
}.

Record memLimitHandlerImpl : Type := mkMemLimit { useAutoScaler : bool }.

Definition newMemLimitHandlerImpl (useAutoScaler : bool)
  : memLimitHandlerImpl :=
  {| useAutoScaler := useAutoScaler |}.

Definition memLimit_chooseHandlerImpl (h : memLimitHandlerImpl)
  (mppErr : error) : bool :=
  if strings_Contains (Error mppErr) memLimitErrPattern && useAutoScaler h
  then true
  else false.

(** The fetched topology is ignored; only the error is looked at. *)
Definition memLimit_doRecovery (h : memLimitHandlerImpl)
  (info : RecoveryInfo) (w : World) : option error * World :=
  let '((_, err), w') :=
    RecoveryAndGetTopo RecoveryTypeMemLimit (NodeCnt info) w in
  match err with
  | Some e => (Some e, w')
  | None => (None, w')
  end.

(** [var _ handlerImpl = &memLimitHandlerImpl{}] *)
Definition memLimitHandler (h : memLimitHandlerImpl) : handlerImpl :=
  {| chooseHandlerImpl := memLimit_chooseHandlerImpl h;
     doRecovery := memLimit_doRecovery h |}.

Record RecoveryHandler : Type := mkRecoveryHandler {
  enable : bool;
  handlers : list handlerImpl;
  holder : mppResultHolder;
  curRecoveryCnt : Z;   (* uint32 *)
  maxRecoveryCnt : Z    (* uint32 *)
}.

Definition NewRecoveryHandler (useAutoScaler : bool) (holderCap : Z)
  (enable : bool) (parent : Tracker) : RecoveryHandler :=
  {| enable := enable;
     handlers := [memLimitHandler (newMemLimitHandlerImpl useAutoScaler)];
     holder := newMPPResultHolder holderCap parent;
     curRecoveryCnt := 0;
     (* Default recovery 3 time. *)
     maxRecoveryCnt := 3 |}.

Definition with_holder (m : RecoveryHandler) (h : mppResultHolder)
  : RecoveryHandler :=
  {| enable := enable m;
     handlers := handlers m;
     holder := h;
     curRecoveryCnt := curRecoveryCnt m;
     maxRecoveryCnt := maxRecoveryCnt m |}.

Definition Enabled (m : RecoveryHandler) : bool := enable m.

Definition CanHoldResult (m : RecoveryHandler) : bool :=
  (0 <? capacity (holder m)) && negb (cannotHold (holder m)).

Definition HoldResult (m : RecoveryHandler) (chk : Chunk) : RecoveryHandler :=
  with_holder m (insert (holder m) chk).

Definition NumHoldChk (m : RecoveryHandler) : Z :=
  Z.of_nat (List.length (chks (holder m))).

Definition NumHoldRows (m : RecoveryHandler) : Z := curRows (holder m).

Definition PopFrontChk (m : RecoveryHandler)
  : option Chunk * RecoveryHandler :=
  if negb (enable m) then (None, m)
  else
    match chks (holder m) with
    | [] => (None, m)
    | chk :: rest =>
        let h := holder m in
        (Some chk,
         with_holder m
           {| capacity := capacity h;
              cannotHold := true;
              curRows := curRows h;
              chks := rest;
              memTracker :=
                Tracker_Consume (memTracker h)
                  (to_int64 (- MemoryUsage chk)) |})
    end.

Definition ResetHolder (m : RecoveryHandler) : RecoveryHandler :=
  with_holder m (reset (holder m)).

Definition RecoveryCnt (m : RecoveryHandler) : Z := curRecoveryCnt m.

Definition errNotEnabled : error :=
  errors_New "mpp err recovery is not enabled".
Definition errNilInfo : error :=
  errors_New "RecoveryInfo is nil or mppErr is nil".
Definition errNoHandler : error :=
  errors_New "no handler to recovery this type of mpp err".

(** The [for _, h := range m.handlers] loop of [Recovery]. *)
Fixpoint scanHandlers (hs : list handlerImpl) (mppErr : error)
  (info : RecoveryInfo) (w : World) : option error * World :=
  match hs with
  | [] => (Some errNoHandler, w)
  | h :: rest =>
      if chooseHandlerImpl h mppErr then doRecovery h info w
      else scanHandlers rest mppErr info w
  end.

Definition Recovery (m : RecoveryHandler) (info : option RecoveryInfo)
  (w : World) : option error * RecoveryHandler * World :=
  if negb (enable m) then (Some errNotEnabled, m, w)
  else
    match info with
    | None => (Some errNilInfo, m, w)
    | Some i =>
        match MPPErr i with
        | None => (Some errNilInfo, m, w)
        | Some mppErr =>
            if maxRecoveryCnt m <=? curRecoveryCnt m
            then (Some (errors_Errorf_exceeds (curRecoveryCnt m)
                          (maxRecoveryCnt m)), m, w)
            else
              let m' :=
                {| enable := enable m;
                   handlers := handlers m;
                   holder := holder m;
                   curRecoveryCnt := to_uint32 (curRecoveryCnt m + 1);
                   maxRecoveryCnt := maxRecoveryCnt m |} in
              let '(r, w') := scanHandlers (handlers m) mppErr i w in
              (r, m', w')
        end
    end.

(** ** Calls made by the engine *)

Inductive Call : Type :=
| CallHoldResult (chk : Chunk)
| CallPopFrontChk
| CallResetHolder
| CallRecovery (info : option RecoveryInfo).

Definition step (c : Call) (s : RecoveryHandler * World)
  : RecoveryHandler * World :=
  let '(m, w) := s in
  match c with
  | CallHoldResult chk => (HoldResult m chk, w)
  | CallPopFrontChk => (snd (PopFrontChk m), w)
  | CallResetHolder => (ResetHolder m, w)
  | CallRecovery info =>
      let '(_, m', w') := Recovery m info w in (m', w')
  end.

Definition run (cs : list Call) (s : RecoveryHandler * World)
  : RecoveryHandler * World :=
  fold_left (fun s c => step c s) cs s.

(** States the engine can bring the handler to, starting from the
    constructor. *)
Inductive reachable : RecoveryHandler -> Prop :=
| reach_new : forall useAutoScaler holderCap enable parent,
    reachable (NewRecoveryHandler useAutoScaler holderCap enable parent)
| reach_step : forall m w c,
    reachable m -> reachable (fst (step c (m, w))).

End Recovery.

(** ** Derived notions used in the statements *)

Section Derived.

Context {World : Type}.

(** No handler of the chain classifies the failure. *)
Definition unclassified (hs : list (@handlerImpl World)) (e : error) : Prop :=
  forall h, In h hs -> chooseHandlerImpl h e = false.

(** A request that [Recovery] accepts and whose failure no handler of the
    receiver classifies. *)
Definition unclassifiable (m : @RecoveryHandler World) (i : RecoveryInfo)
  : Prop :=
  exists e, MPPErr i = Some e /\ unclassified (handlers m) e.

(** [HoldResult] called once per chunk, in order. *)
Definition holdAll (m : @RecoveryHandler World) (cs : list Chunk)
  : RecoveryHandler :=
  fold_left HoldResult cs m.

(** [PopFrontChk] called [n] times; the chunks returned, in order. *)
Fixpoint drain (n : nat) (m : @RecoveryHandler World)
  : list Chunk * RecoveryHandler :=
  match n with
  | O => ([], m)
  | S k =>
      match PopFrontChk m with
      | (Some chk, m') => let '(out, m'') := drain k m' in (chk :: out, m'')
      | (None, m') => drain k m'
      end
  end.

(** What the result of [Recovery] is made of. *)
Definition outcome (r : option error * @RecoveryHandler World * World)
  : option error := fst (fst r).
Definition after (r : option error * @RecoveryHandler World * World)
  : RecoveryHandler := snd (fst r).
Definition world_after (r : option error * @RecoveryHandler World * World)
  : World := snd r.

(** The receiver with one more attempt charged. *)
Definition charged (m : @RecoveryHandler World) : RecoveryHandler :=
  {| enable := enable m;
     handlers := handlers m;
     holder := holder m;
     curRecoveryCnt := curRecoveryCnt m + 1;
     maxRecoveryCnt := maxRecoveryCnt m |}.

Definition is_reset (c : Call) : bool :=
  match c with CallResetHolder => true | _ => false end.

(** Rows a call adds to the holder, as a [uint64]. *)
Definition rowsAdded (c : Call) : Z :=
  match c with
  | CallHoldResult chk => to_uint64 (NumRows chk)
  | _ => 0
  end.

End Derived.

Definition sumRows (cs : list Chunk) : Z :=
  fold_right (fun c acc => NumRows c + acc) 0 cs.

Definition sumAdded (cs : list Call) : Z :=
  fold_right (fun c acc => rowsAdded c + acc) 0 cs.

(** ** A concrete service and concrete values, for the examples

    The world counts the calls made to the service; the service fails when
    asked to recover zero nodes. *)

Definition sampleService (t : RecoveryType) (nodeCnt : Z) (w : nat)
  : (list Z * option error) * nat :=
  if nodeCnt =? 0
  then (([], Some (errors_New "no node to recover")), S w)
  else (([nodeCnt], None), S w).

Definition sampleParent : Tracker := mkTracker 7 1024 [].

Definition sampleNew (useAutoScaler : bool) (holderCap : Z) (enable : bool)
  : @RecoveryHandler nat :=
  NewRecoveryHandler sampleService useAutoScaler holderCap enable sampleParent.

Definition memLimitFailure : error :=
  errors_New "Code: 241, Memory limit (total) exceeded".
Definition otherFailure : error := errors_New "connection reset by peer".

Definition memLimitInfo : RecoveryInfo := mkInfo (Some memLimitFailure) 2.
Definition otherInfo : RecoveryInfo := mkInfo (Some otherFailure) 2.

Definition chunk60 : Chunk := mkChunk 4096 60 1920.
Definition chunk50 : Chunk := mkChunk 8192 50 1600.

(** A chunk without columns whose virtual row count is the largest [int]. *)
Definition chunkHuge : Chunk := mkChunk 12288 (2 ^ 63 - 1) 0.

(** A handler that chooses every failure and whose action fails. *)
Definition givingUpHandler : @handlerImpl nat :=
  {| chooseHandlerImpl := fun _ => true;
     doRecovery := fun _ w => (Some (errors_New "gave up"), S w) |}.

(** A receiver with two handlers: the memory-limit handler without
    auto-scaler, then [givingUpHandler]. *)
Definition sampleTwoHandlers : @RecoveryHandler nat :=
  {| enable := true;
     handlers :=
       [memLimitHandler sampleService (newMemLimitHandlerImpl false);
        givingUpHandler];
     holder := newMPPResultHolder 100 sampleParent;
     curRecoveryCnt := 1;
     maxRecoveryCnt := 3 |}.

(** Scenario A: capacity 100, a chunk of 60 rows held, then one of 50. *)
Definition sampleHeld60 : @RecoveryHandler nat :=
  HoldResult (sampleNew false 100 true) chunk60.
Definition sampleHeld110 : @RecoveryHandler nat :=
  HoldResult sampleHeld60 chunk50.

(** A new receiver that holds [chunkHuge] twice. *)
Definition sampleHeldHuge : @RecoveryHandler nat :=
  holdAll (sampleNew false 100 true) [chunkHuge; chunkHuge].

(** The receiver of scenario B after three charged attempts and a reset of
    the holder. *)
Definition sampleExhausted : @RecoveryHandler nat :=
  fst (run [CallRecovery (Some otherInfo); CallRecovery (Some otherInfo);
            CallRecovery (Some otherInfo); CallResetHolder]
         (sampleNew false 100 true, 0%nat)).

(** ** Observations over a sequence of calls *)

Section Observations.

Context {World : Type}.

(** The chunk a call hands back to the engine, if any. *)
Definition poppedBy (c : Call) (m : @RecoveryHandler World) : list Chunk :=
  match c with
  | CallPopFrontChk =>
      match fst (PopFrontChk m) with
      | Some chk => [chk]
      | None => []
      end
  | _ => []
  end.

(** The chunks returned by the [PopFrontChk] calls of a sequence, oldest
    first. *)
Fixpoint popped (cs : list Call) (s : @RecoveryHandler World * World)
  : list Chunk :=
  match cs with
  | [] => []
  | c :: rest => poppedBy c (fst s) ++ popped rest (step c s)
  end.

(** The chunks given to [HoldResult] by a sequence, oldest first. *)
Definition heldBy (cs : list Call) : list Chunk :=
  flat_map
    (fun c => match c with CallHoldResult chk => [chk] | _ => [] end) cs.

Definition is_recovery (c : Call) : bool :=
  match c with CallRecovery _ => true | _ => false end.

(** The handler has held every chunk of [cs] and the engine has popped [n]
    times; the receiver that is left. *)
Definition drained (n : nat) (m : @RecoveryHandler World) : RecoveryHandler :=
  snd (drain n m).

End Observations.

(** The bytes the tracker is charged with according to the calls it has
    received since the last [Detach]. *)
Definition consumedSinceDetach (log : list TrackerCall) : Z :=
  fold_left
    (fun acc c => match c with Consume bytes => acc + bytes | Detach => 0 end)
    log 0.

Definition sumMem (cs : list Chunk) : Z :=
  fold_right (fun c acc => MemoryUsage c + acc) 0 cs.

(** What [MemoryUsage()] of a chunk can be: a size, as an [int64]. *)
Definition memOk (chk : Chunk) : Prop := 0 <= MemoryUsage chk < 2 ^ 63.

Definition callMemOk (c : Call) : Prop :=
  match c with
  | CallHoldResult chk => memOk chk
  | _ => True
  end.

(** The tracker is charged with the chunks held, whose memory usages are
    sizes. *)
Definition balanced {World : Type} (m : @RecoveryHandler World) : Prop :=
  consumedSinceDetach (calls (memTracker (holder m)))
  = sumMem (chks (holder m)) /\
  Forall memOk (chks (holder m)).

(** The calls of scenario A followed by a recovery attempt and a reset. *)
Definition sampleCalls : list Call :=
  [CallHoldResult chunk60; CallHoldResult chunk50; CallPopFrontChk;
   CallRecovery (Some memLimitInfo); CallResetHolder;
   CallHoldResult chunk50].

(** A handler with the auto-scaler whose three attempts have been used
    on failures that no handler classifies. *)
Definition sampleExhaustedScaler : @RecoveryHandler nat :=
  fst (run [CallRecovery (Some otherInfo); CallRecovery (Some otherInfo);
            CallRecovery (Some otherInfo)]
         (sampleNew true 100 true, 0%nat)).

(** Scenario A without the reset. *)
Definition sampleCallsNoReset : list Call :=
  [CallHoldResult chunk60; CallPopFrontChk; CallHoldResult chunk50;
   CallRecovery (Some otherInfo); CallPopFrontChk; CallPopFrontChk].

(** ** Properties *)

Lemma to_uint32_id (z : Z) : is_uint32 z -> to_uint32 z = z.
Proof. unfold is_uint32, to_uint32. intros H. apply Z.mod_small. exact H. Qed.

Lemma to_uint64_id (z : Z) : is_uint64 z -> to_uint64 z = z.
Proof. unfold is_uint64, to_uint64. intros H. apply Z.mod_small. exact H. Qed.

Lemma to_uint64_range (z : Z) : is_uint64 (to_uint64 z).
Proof. unfold is_uint64, to_uint64. apply Z.mod_pos_bound. lia. Qed.

Lemma to_int64_neg (z : Z) : - 2 ^ 63 < z < 2 ^ 63 -> to_int64 (- z) = - z.
Proof.
  unfold to_int64. intros H.
  rewrite Z.mod_small by lia. lia.
Qed.

Lemma prefix_split (p s : string) :
  String.prefix p s = true -> exists post, s = (p ++ post)%string.
Proof.
  revert s. induction p as [|a p IH]; intros s H.
  - exists s. reflexivity.
  - destruct s as [|b s]; simpl in H; [discriminate|].
    destruct (ascii_dec a b) as [->|]; [|discriminate].
    destruct (IH s H) as [post ->]. exists post. reflexivity.
Qed.

Lemma prefix_append (p post : string) :
  String.prefix p (p ++ post)%string = true.
Proof.
  induction p as [|a p IH]; simpl.
  - destruct post; reflexivity.
  - destruct (ascii_dec a a) as [_|n]; [exact IH | now destruct n].
Qed.

Lemma strings_Contains_occurs (s substr : string) :
  strings_Contains s substr = true <->
  exists pre post, s = (pre ++ substr ++ post)%string.
Proof.
  split.
  - induction s as [|a s IH]; cbn [strings_Contains].
    + destruct (String.prefix substr EmptyString) eqn:E;
        intros H; [|discriminate].
      destruct (prefix_split _ _ E) as [post Hp].
      exists EmptyString, post. exact Hp.
    + destruct (String.prefix substr (String a s)) eqn:E; intros H.
      * destruct (prefix_split _ _ E) as [post Hp].
        exists EmptyString, post. exact Hp.
      * destruct (IH H) as (pre & post & ->).
        exists (String a pre), post. reflexivity.
  - intros (pre & post & ->).
    induction pre as [|a pre IH].
    + cbn [append]. destruct (substr ++ post)%string eqn:E;
        cbn [strings_Contains]; rewrite <- E, prefix_append; reflexivity.
    + cbn [append strings_Contains].
      destruct (String.prefix substr (String a (pre ++ substr ++ post)));
        [reflexivity | exact IH].
Qed.

Section Properties.

Context {World : Type} {Topo : Type}.
Variable RecoveryAndGetTopo :
  RecoveryType -> Z -> World -> (Topo * option error) * World.

Abbreviation Handler := (@RecoveryHandler World).

(** *** The scan of the handler chain *)

Lemma scanHandlers_first_match
  (pre post : list handlerImpl) (h : handlerImpl) (e : error)
  (i : RecoveryInfo) (w : World) :
  unclassified pre e ->
  chooseHandlerImpl h e = true ->
  scanHandlers (pre ++ h :: post) e i w = doRecovery h i w.
Proof.
  induction pre as [|p pre IH]; intros Hpre Hh; simpl.
  - rewrite Hh. reflexivity.
  - rewrite (Hpre p (or_introl eq_refl)).
    apply IH; [|exact Hh].
    intros h' Hin. apply Hpre. right. exact Hin.
Qed.

Lemma scanHandlers_no_match
  (hs : list handlerImpl) (e : error) (i : RecoveryInfo) (w : World) :
  unclassified hs e ->
  scanHandlers hs e i w = (Some errNoHandler, w).
Proof.
  induction hs as [|h hs IH]; intros Hno; simpl.
  - reflexivity.
  - rewrite (Hno h (or_introl eq_refl)).
    apply IH. intros h' Hin. apply Hno. right. exact Hin.
Qed.

(** *** The four ways out of [Recovery] *)

Lemma Recovery_disabled (m : Handler) (info : option RecoveryInfo) (w : World) :
  enable m = false ->
  Recovery m info w = (Some errNotEnabled, m, w).
Proof. intros He. unfold Recovery. rewrite He. reflexivity. Qed.

Lemma Recovery_nil (m : Handler) (info : option RecoveryInfo) (w : World) :
  enable m = true ->
  info = None \/ (exists i, info = Some i /\ MPPErr i = None) ->
  Recovery m info w = (Some errNilInfo, m, w).
Proof.
  intros He [-> | (i & -> & Hi)]; unfold Recovery; rewrite He; simpl.
  - reflexivity.
  - rewrite Hi. reflexivity.
Qed.

Lemma Recovery_exceeds (m : Handler) (i : RecoveryInfo) (e : error) (w : World) :
  enable m = true ->
  MPPErr i = Some e ->
  maxRecoveryCnt m <= curRecoveryCnt m ->
  Recovery m (Some i) w =
    (Some (errors_Errorf_exceeds (curRecoveryCnt m) (maxRecoveryCnt m)), m, w).
Proof.
  intros He Hi Hle. unfold Recovery. rewrite He, Hi. simpl.
  apply Z.leb_le in Hle. rewrite Hle. reflexivity.
Qed.

Lemma Recovery_charged (m : Handler) (i : RecoveryInfo) (e : error) (w : World) :
  is_uint32 (curRecoveryCnt m) ->
  is_uint32 (maxRecoveryCnt m) ->
  enable m = true ->
  MPPErr i = Some e ->
  curRecoveryCnt m < maxRecoveryCnt m ->
  Recovery m (Some i) w =
    (fst (scanHandlers (handlers m) e i w), charged m,
     snd (scanHandlers (handlers m) e i w)).
Proof.
  intros Hc Hm He Hi Hlt. unfold Recovery, charged. rewrite He, Hi. simpl.
  apply Z.leb_gt in Hlt as Hlt'. rewrite Hlt'.
  rewrite to_uint32_id by (unfold is_uint32 in *; lia).
  destruct (scanHandlers (handlers m) e i w) as [r w']. reflexivity.
Qed.

Lemma Recovery_unclassified
  (m : Handler) (i : RecoveryInfo) (e : error) (w : World) :
  is_uint32 (curRecoveryCnt m) ->
  is_uint32 (maxRecoveryCnt m) ->
  enable m = true ->
  MPPErr i = Some e ->
  curRecoveryCnt m < maxRecoveryCnt m ->
  unclassified (handlers m) e ->
  Recovery m (Some i) w = (Some errNoHandler, charged m, w).
Proof.
  intros Hc Hm He Hi Hlt Hno.
  rewrite (Recovery_charged m i e w Hc Hm He Hi Hlt).
  rewrite (scanHandlers_no_match _ e i w Hno). reflexivity.
Qed.

(** The four errors that [Recovery] builds itself have different texts. *)
Lemma Recovery_errors_distinct (cur max : Z) :
  errNotEnabled <> errNilInfo /\
  errNotEnabled <> errNoHandler /\
  errNilInfo <> errNoHandler /\
  errors_Errorf_exceeds cur max <> errNotEnabled /\
  errors_Errorf_exceeds cur max <> errNilInfo /\
  errors_Errorf_exceeds cur max <> errNoHandler.
Proof.
  unfold errNotEnabled, errNilInfo, errNoHandler, errors_Errorf_exceeds,
    errors_New.
  repeat split; intros H; injection H; intros; discriminate.
Qed.

(** C1. [Recovery(info)] checks, in this order: the switch (off: the
    not-enabled error), the request (nil request or nil failure: the
    nil-info error), the budget ([curRecoveryCnt >= maxRecoveryCnt]: the
    exceeds error); in these three cases the receiver, hence the counter,
    and the service are left as they were.  Otherwise the counter grows by
    exactly one and nothing else of the receiver changes, the first handler
    in registration order that chooses the failure has the outcome of its
    [doRecovery] returned as it is, success or failure, and when no handler
    chooses the failure the no-handler error is returned. *)
Theorem Recovery_order (m : Handler) (info : option RecoveryInfo) (w : World)
  (Hcur : is_uint32 (curRecoveryCnt m))
  (Hmax : is_uint32 (maxRecoveryCnt m)) :
  (enable m = false ->
     Recovery m info w = (Some errNotEnabled, m, w)) /\
  (enable m = true ->
   info = None \/ (exists i, info = Some i /\ MPPErr i = None) ->
     Recovery m info w = (Some errNilInfo, m, w)) /\
  (forall i e,
     enable m = true -> info = Some i -> MPPErr i = Some e ->
     maxRecoveryCnt m <= curRecoveryCnt m ->
     Recovery m info w =
       (Some (errors_Errorf_exceeds (curRecoveryCnt m) (maxRecoveryCnt m)),
        m, w)) /\
  (forall i e,
     enable m = true -> info = Some i -> MPPErr i = Some e ->
     curRecoveryCnt m < maxRecoveryCnt m ->
     RecoveryCnt (after (Recovery m info w)) = RecoveryCnt m + 1 /\
     after (Recovery m info w) = charged m /\
     (forall pre h post,
        handlers m = pre ++ h :: post ->
        unclassified pre e ->
        chooseHandlerImpl h e = true ->
        (outcome (Recovery m info w), world_after (Recovery m info w))
        = doRecovery h i w) /\
     (unclassified (handlers m) e ->
        outcome (Recovery m info w) = Some errNoHandler /\
        world_after (Recovery m info w) = w)).
Proof.
  split; [|split; [|split]].
  - apply Recovery_disabled.
  - apply Recovery_nil.
  - intros i e He -> Hi Hle. apply (Recovery_exceeds m i e w He Hi Hle).
  - intros i e He -> Hi Hlt.
    rewrite (Recovery_charged m i e w Hcur Hmax He Hi Hlt).
    unfold outcome, after, world_after, RecoveryCnt. simpl.
    split; [reflexivity|]. split; [reflexivity|]. split.
    + intros pre h post Hhs Hpre Hh. rewrite Hhs.
      rewrite (scanHandlers_first_match pre post h e i w Hpre Hh).
      destruct (doRecovery h i w). reflexivity.
    + intros Hno. rewrite (scanHandlers_no_match _ e i w Hno).
      split; reflexivity.
Qed.

(** *** The retry budget *)

(** What [Recovery] may do to the receiver: nothing, or charge one attempt
    while the budget is not used up. *)
Lemma Recovery_effect (m : Handler) (info : option RecoveryInfo) (w : World) :
  after (Recovery m info w) = m \/
  (curRecoveryCnt m < maxRecoveryCnt m /\
   after (Recovery m info w) =
     {| enable := enable m;
        handlers := handlers m;
        holder := holder m;
        curRecoveryCnt := to_uint32 (curRecoveryCnt m + 1);
        maxRecoveryCnt := maxRecoveryCnt m |}).
Proof.
  unfold Recovery, after.
  destruct (enable m); simpl; [|left; reflexivity].
  destruct info as [i|]; [|left; reflexivity].
  destruct (MPPErr i) as [e|]; [|left; reflexivity].
  destruct (maxRecoveryCnt m <=? curRecoveryCnt m) eqn:E; [left; reflexivity|].
  right. apply Z.leb_gt in E. split; [exact E|].
  destruct (scanHandlers (handlers m) e i w). reflexivity.
Qed.

Lemma step_after (c : Call) (m : Handler) (w : World) :
  fst (step c (m, w)) =
    match c with
    | CallHoldResult chk => HoldResult m chk
    | CallPopFrontChk => snd (PopFrontChk m)
    | CallResetHolder => ResetHolder m
    | CallRecovery info => after (Recovery m info w)
    end.
Proof.
  destruct c; simpl; try reflexivity.
  unfold after. destruct (Recovery m info w) as [[r m'] w']. reflexivity.
Qed.

Lemma PopFrontChk_counters (m : Handler) :
  curRecoveryCnt (snd (PopFrontChk m)) = curRecoveryCnt m /\
  maxRecoveryCnt (snd (PopFrontChk m)) = maxRecoveryCnt m /\
  enable (snd (PopFrontChk m)) = enable m /\
  handlers (snd (PopFrontChk m)) = handlers m.
Proof.
  unfold PopFrontChk.
  destruct (enable m) eqn:E; simpl; [|now rewrite E].
  destruct (chks (holder m)); simpl; now rewrite ?E.
Qed.

(** One call keeps the switch, the chain and the budget, and keeps the
    counter within the budget. *)
Lemma step_counters (c : Call) (m : Handler) (w : World) :
  is_uint32 (maxRecoveryCnt m) ->
  0 <= curRecoveryCnt m <= maxRecoveryCnt m ->
  let m' := fst (step c (m, w)) in
  enable m' = enable m /\
  handlers m' = handlers m /\
  maxRecoveryCnt m' = maxRecoveryCnt m /\
  curRecoveryCnt m <= curRecoveryCnt m' <= maxRecoveryCnt m.
Proof.
  intros Hmax Hcur. cbv zeta. rewrite step_after. destruct c.
  - simpl. repeat split; lia.
  - destruct (PopFrontChk_counters m) as (-> & -> & -> & ->).
    repeat split; lia.
  - simpl. repeat split; lia.
  - destruct (Recovery_effect m info w) as [-> | [Hlt ->]]; simpl.
    + repeat split; lia.
    + rewrite to_uint32_id by (unfold is_uint32 in *; lia).
      repeat split; lia.
Qed.

Lemma reachable_counters (m : Handler) :
  reachable RecoveryAndGetTopo m ->
  maxRecoveryCnt m = 3 /\ 0 <= curRecoveryCnt m <= 3.
Proof.
  induction 1 as [ua cap en parent | m w c Hr [IHmax IHcur]].
  - simpl. lia.
  - assert (Hmax : is_uint32 (maxRecoveryCnt m))
      by (rewrite IHmax; unfold is_uint32; lia).
    assert (Hcur : 0 <= curRecoveryCnt m <= maxRecoveryCnt m) by lia.
    destruct (step_counters c m w Hmax Hcur) as (_ & _ & Hm' & Hc').
    rewrite Hm'. lia.
Qed.

Lemma Recovery_unclassifiable
  (m : Handler) (i : RecoveryInfo) (w : World) :
  enable m = true ->
  maxRecoveryCnt m = 3 ->
  0 <= curRecoveryCnt m < 3 ->
  unclassifiable m i ->
  Recovery m (Some i) w = (Some errNoHandler, charged m, w).
Proof.
  intros He Hmax Hcur (e & Hi & Hno).
  apply (Recovery_unclassified m i e w); try assumption;
    unfold is_uint32; lia.
Qed.

(** C2. The counter never exceeds the budget in a state the engine can
    reach from the constructor.  With a budget of 3, the switch on and no
    attempt charged yet, three calls of [Recovery] with failures that no
    handler classifies return the no-handler error and bring
    [RecoveryCnt()] to 1, 2 and 3; a fourth such call returns the exceeds
    error and leaves [RecoveryCnt()] at 3. *)
Theorem RecoveryCnt_within_budget :
  (forall m : Handler,
     reachable RecoveryAndGetTopo m ->
     curRecoveryCnt m <= maxRecoveryCnt m) /\
  (forall (m : Handler) (w : World) (i1 i2 i3 i4 : RecoveryInfo),
     enable m = true ->
     maxRecoveryCnt m = 3 ->
     curRecoveryCnt m = 0 ->
     unclassifiable m i1 -> unclassifiable m i2 ->
     unclassifiable m i3 -> unclassifiable m i4 ->
     let r1 := Recovery m (Some i1) w in
     let r2 := Recovery (after r1) (Some i2) (world_after r1) in
     let r3 := Recovery (after r2) (Some i3) (world_after r2) in
     let r4 := Recovery (after r3) (Some i4) (world_after r3) in
     (outcome r1 = Some errNoHandler /\ RecoveryCnt (after r1) = 1) /\
     (outcome r2 = Some errNoHandler /\ RecoveryCnt (after r2) = 2) /\
     (outcome r3 = Some errNoHandler /\ RecoveryCnt (after r3) = 3) /\
     (outcome r4 = Some (errors_Errorf_exceeds 3 3) /\
      RecoveryCnt (after r4) = 3)).
Proof.
  split.
  - intros m Hr. destruct (reachable_counters m Hr) as [-> H]. lia.
  - intros m w i1 i2 i3 i4 He Hmax Hcur U1 U2 U3 U4 r1 r2 r3 r4.
    assert (E1 : r1 = (Some errNoHandler, charged m, w)).
    { apply Recovery_unclassifiable; try assumption. lia. }
    assert (E2 : r2 = (Some errNoHandler, charged (charged m), w)).
    { unfold r2. rewrite E1. unfold after, world_after. simpl fst. simpl snd.
      apply Recovery_unclassifiable; simpl; try assumption. lia. }
    assert (E3 : r3 = (Some errNoHandler, charged (charged (charged m)), w)).
    { unfold r3. rewrite E2. unfold after, world_after. simpl fst. simpl snd.
      apply Recovery_unclassifiable; simpl; try assumption. lia. }
    assert (E4 : r4 = (Some (errors_Errorf_exceeds 3 3),
                       charged (charged (charged m)), w)).
    { unfold r4. rewrite E3. unfold after, world_after. simpl fst. simpl snd.
      destruct U4 as (e4 & Hi4 & _).
      rewrite (Recovery_exceeds _ i4 e4 w); simpl; try assumption; [|lia].
      rewrite Hmax, Hcur. reflexivity. }
    rewrite E1, E2, E3, E4. unfold outcome, after, RecoveryCnt. simpl.
    rewrite Hcur. repeat split; reflexivity.
Qed.

(** *** The latch of the holder *)

(** The latch after one call, by call. *)
Lemma step_cannotHold (c : Call) (m : Handler) (w : World) :
  cannotHold (holder (fst (step c (m, w)))) =
    match c with
    | CallHoldResult chk =>
        (capacity (holder m) <=? NumHoldRows (HoldResult m chk))
        || cannotHold (holder m)
    | CallPopFrontChk =>
        match fst (PopFrontChk m) with
        | Some _ => true
        | None => cannotHold (holder m)
        end
    | CallResetHolder => false
    | CallRecovery _ => cannotHold (holder m)
    end.
Proof.
  rewrite step_after. destruct c.
  - unfold NumHoldRows. simpl.
    destruct (capacity (holder m) <=? _); reflexivity.
  - unfold PopFrontChk. destruct (enable m); simpl; [|reflexivity].
    destruct (chks (holder m)); reflexivity.
  - reflexivity.
  - destruct (Recovery_effect m info w) as [-> | [_ ->]]; reflexivity.
Qed.

Lemma run_app (cs ds : list Call) (s : Handler * World) :
  run (cs ++ ds) s = run ds (run cs s).
Proof. unfold run. apply fold_left_app. Qed.

Lemma run_cons (c : Call) (cs : list Call) (s : Handler * World) :
  run (c :: cs) s = run cs (step c s).
Proof. reflexivity. Qed.

Lemma run_cannotHold_sticky (cs : list Call) (m : Handler) (w : World) :
  forallb (fun c => negb (is_reset c)) cs = true ->
  cannotHold (holder m) = true ->
  cannotHold (holder (fst (run cs (m, w)))) = true.
Proof.
  revert m w. induction cs as [|c cs IH]; intros m w Hcs Hm.
  - exact Hm.
  - simpl in Hcs. apply andb_prop in Hcs as [Hc Hcs].
    rewrite run_cons. destruct (step c (m, w)) as [m' w'] eqn:E.
    apply IH; [exact Hcs|].
    assert (Hm' : m' = fst (step c (m, w))) by (rewrite E; reflexivity).
    rewrite Hm', step_cannotHold, Hm.
    destruct c; simpl in Hc; try discriminate.
    + apply orb_true_r.
    + destruct (fst (PopFrontChk m)); reflexivity.
    + reflexivity.
Qed.

(** C3. The latch [cannotHold] goes from false to true only by an insert
    after which the row count has reached the capacity or by a
    [PopFrontChk] that returns a chunk, and both always set it; once true
    it is still true after any call other than [ResetHolder], hence after
    any sequence of such calls; [ResetHolder] clears it and is the only
    call after which a latch that was set is clear. *)
Theorem cannotHold_latch (c : Call) (m : Handler) (w : World) :
  let m' := fst (step c (m, w)) in
  (cannotHold (holder m) = false -> cannotHold (holder m') = true ->
     (exists chk, c = CallHoldResult chk /\
                  capacity (holder m) <= NumHoldRows m') \/
     (c = CallPopFrontChk /\ exists chk, fst (PopFrontChk m) = Some chk)) /\
  (forall chk, c = CallHoldResult chk ->
     capacity (holder m) <= NumHoldRows m' ->
     cannotHold (holder m') = true) /\
  (forall chk, c = CallPopFrontChk -> fst (PopFrontChk m) = Some chk ->
     cannotHold (holder m') = true) /\
  (cannotHold (holder m) = true -> c <> CallResetHolder ->
     cannotHold (holder m') = true) /\
  (forall cs,
     cannotHold (holder m) = true ->
     forallb (fun c => negb (is_reset c)) cs = true ->
     cannotHold (holder (fst (run cs (m, w)))) = true) /\
  (c = CallResetHolder -> cannotHold (holder m') = false) /\
  (cannotHold (holder m) = true -> cannotHold (holder m') = false ->
     c = CallResetHolder).
Proof.
  cbv zeta. rewrite step_cannotHold.
  split; [|split; [|split; [|split; [|split; [|split]]]]].
  - intros Hm. rewrite step_after. destruct c; rewrite ?Hm.
    + rewrite orb_false_r. intros H. left. exists chk.
      split; [reflexivity | apply Z.leb_le; exact H].
    + destruct (fst (PopFrontChk m)) as [chk|] eqn:E.
      * intros _. right. split; [reflexivity | exists chk; reflexivity].
      * discriminate.
    + discriminate.
    + discriminate.
  - intros chk -> H. rewrite step_after in H.
    apply Z.leb_le in H. rewrite H. reflexivity.
  - intros chk -> H. rewrite H. reflexivity.
  - intros Hm Hc. rewrite Hm. destruct c.
    + apply orb_true_r.
    + destruct (fst (PopFrontChk m)); reflexivity.
    + now destruct Hc.
    + reflexivity.
  - intros cs Hm Hcs. apply run_cannotHold_sticky; assumption.
  - intros ->. reflexivity.
  - intros Hm. rewrite Hm. destruct c.
    + rewrite orb_true_r. discriminate.
    + destruct (fst (PopFrontChk m)); discriminate.
    + reflexivity.
    + discriminate.
Qed.

(** *** Draining the holder *)

Lemma holdAll_snoc (m : Handler) (cs : list Chunk) (chk : Chunk) :
  holdAll m (cs ++ [chk]) = HoldResult (holdAll m cs) chk.
Proof. unfold holdAll. rewrite fold_left_app. reflexivity. Qed.

Lemma holdAll_frame (m : Handler) (cs : list Chunk) :
  enable (holdAll m cs) = enable m /\
  handlers (holdAll m cs) = handlers m /\
  curRecoveryCnt (holdAll m cs) = curRecoveryCnt m /\
  maxRecoveryCnt (holdAll m cs) = maxRecoveryCnt m /\
  capacity (holder (holdAll m cs)) = capacity (holder m).
Proof.
  induction cs as [|chk cs IH] using rev_ind.
  - repeat split.
  - rewrite holdAll_snoc. simpl. exact IH.
Qed.

Lemma holdAll_chks (m : Handler) (cs : list Chunk) :
  chks (holder (holdAll m cs)) = chks (holder m) ++ cs.
Proof.
  induction cs as [|chk cs IH] using rev_ind.
  - simpl. rewrite app_nil_r. reflexivity.
  - rewrite holdAll_snoc. simpl. rewrite IH, app_assoc. reflexivity.
Qed.

Lemma holdAll_calls (m : Handler) (cs : list Chunk) :
  calls (memTracker (holder (holdAll m cs))) =
  calls (memTracker (holder m))
  ++ map (fun chk => Consume (MemoryUsage chk)) cs.
Proof.
  induction cs as [|chk cs IH] using rev_ind.
  - simpl. rewrite app_nil_r. reflexivity.
  - rewrite holdAll_snoc. simpl. rewrite IH, map_app, app_assoc. reflexivity.
Qed.

Lemma PopFrontChk_some (m : Handler) (chk : Chunk) (rest : list Chunk) :
  enable m = true ->
  chks (holder m) = chk :: rest ->
  PopFrontChk m =
    (Some chk,
     with_holder m
       {| capacity := capacity (holder m);
          cannotHold := true;
          curRows := curRows (holder m);
          chks := rest;
          memTracker :=
            Tracker_Consume (memTracker (holder m))
              (to_int64 (- MemoryUsage chk)) |}).
Proof. intros He Hc. unfold PopFrontChk. rewrite He, Hc. reflexivity. Qed.

Lemma PopFrontChk_none (m : Handler) :
  enable m = false \/ chks (holder m) = [] ->
  PopFrontChk m = (None, m).
Proof.
  intros [He | Hc]; unfold PopFrontChk.
  - rewrite He. reflexivity.
  - rewrite Hc. destruct (negb (enable m)); reflexivity.
Qed.

Lemma drain_firstn (n : nat) (m : Handler) :
  enable m = true ->
  fst (drain n m) = firstn n (chks (holder m)).
Proof.
  revert m. induction n as [|n IH]; intros m He.
  - reflexivity.
  - cbn [drain]. destruct (chks (holder m)) as [|chk rest] eqn:Hc.
    + rewrite (PopFrontChk_none m (or_intror Hc)).
      rewrite (IH m He), Hc. destruct n; reflexivity.
    + rewrite (PopFrontChk_some m chk rest He Hc).
      specialize (IH (with_holder m
        {| capacity := capacity (holder m);
           cannotHold := true;
           curRows := curRows (holder m);
           chks := rest;
           memTracker :=
             Tracker_Consume (memTracker (holder m))
               (to_int64 (- MemoryUsage chk)) |}) He).
      destruct (drain n _) as [out m'']. simpl in IH. simpl.
      rewrite IH. reflexivity.
Qed.

(** C4. [PopFrontChk] returns nil exactly when the switch is off or no
    chunk is held, and then the receiver is left as it was.  Otherwise it
    returns the oldest chunk held, keeps the others in order, calls
    [Consume] on the tracker with the negated memory usage of that chunk,
    sets [cannotHold] whatever the row count is, and touches nothing else.
    Popping repeatedly returns the chunks in the order they were held. *)
Theorem PopFrontChk_spec (m : Handler) :
  (fst (PopFrontChk m) = None <->
     enable m = false \/ chks (holder m) = []) /\
  (fst (PopFrontChk m) = None -> snd (PopFrontChk m) = m) /\
  (forall chk rest,
     enable m = true -> chks (holder m) = chk :: rest ->
     let m' := snd (PopFrontChk m) in
     fst (PopFrontChk m) = Some chk /\
     chks (holder m') = rest /\
     memTracker (holder m') =
       Tracker_Consume (memTracker (holder m))
         (to_int64 (- MemoryUsage chk)) /\
     (0 <= MemoryUsage chk < 2 ^ 63 ->
        calls (memTracker (holder m')) =
        calls (memTracker (holder m)) ++ [Consume (- MemoryUsage chk)]) /\
     cannotHold (holder m') = true /\
     CanHoldResult m' = false /\
     NumHoldRows m' = NumHoldRows m /\
     capacity (holder m') = capacity (holder m) /\
     enable m' = enable m /\
     handlers m' = handlers m /\
     curRecoveryCnt m' = curRecoveryCnt m /\
     maxRecoveryCnt m' = maxRecoveryCnt m) /\
  (forall cs n,
     enable m = true ->
     fst (drain n (holdAll m cs)) = firstn n (chks (holder m) ++ cs)).
Proof.
  split; [|split; [|split]].
  - split.
    + unfold PopFrontChk. destruct (enable m); simpl; [|intros _; now left].
      destruct (chks (holder m)); simpl; [intros _; now right | discriminate].
    + intros H. rewrite (PopFrontChk_none m H). reflexivity.
  - unfold PopFrontChk. destruct (enable m); simpl; [|reflexivity].
    destruct (chks (holder m)); simpl; [reflexivity | discriminate].
  - intros chk rest He Hc. cbv zeta.
    rewrite (PopFrontChk_some m chk rest He Hc).
    unfold CanHoldResult, NumHoldRows. simpl.
    repeat split; try reflexivity.
    + intros Hmem. rewrite to_int64_neg by lia. reflexivity.
    + apply andb_false_r.
  - intros cs n He.
    rewrite drain_firstn, holdAll_chks; [reflexivity|].
    destruct (holdAll_frame m cs) as [-> _]. exact He.
Qed.

(** *** The memory-limit handler *)

Lemma memLimit_doRecovery_outcome
  (h : memLimitHandlerImpl) (i : RecoveryInfo) (w : World) :
  memLimit_doRecovery RecoveryAndGetTopo h i w =
    (snd (fst (RecoveryAndGetTopo RecoveryTypeMemLimit (NodeCnt i) w)),
     snd (RecoveryAndGetTopo RecoveryTypeMemLimit (NodeCnt i) w)).
Proof.
  unfold memLimit_doRecovery.
  destruct (RecoveryAndGetTopo RecoveryTypeMemLimit (NodeCnt i) w)
    as [[topo [err|]] w']; reflexivity.
Qed.

(** C5. The memory-limit handler chooses a failure exactly when its text
    contains "Memory limit" and [useAutoScaler] is set.  So, on a receiver
    whose chain is the memory-limit handler alone, switched on and within
    budget, a failure whose text contains "Memory limit" gets the outcome
    of that handler's [doRecovery] when [useAutoScaler] is true and the
    no-handler error when it is false; the attempt is charged in both. *)
Theorem memLimit_classification :
  (forall (h : memLimitHandlerImpl) (e : error),
     memLimit_chooseHandlerImpl h e = true <->
     (exists pre post,
        Error e = (pre ++ memLimitErrPattern ++ post)%string) /\
     useAutoScaler h = true) /\
  (forall (m : Handler) (ua : bool) (i : RecoveryInfo) (e : error) (w : World),
     handlers m =
       [memLimitHandler RecoveryAndGetTopo (newMemLimitHandlerImpl ua)] ->
     is_uint32 (curRecoveryCnt m) ->
     is_uint32 (maxRecoveryCnt m) ->
     enable m = true ->
     curRecoveryCnt m < maxRecoveryCnt m ->
     MPPErr i = Some e ->
     (exists pre post,
        Error e = (pre ++ memLimitErrPattern ++ post)%string) ->
     (ua = true ->
        Recovery m (Some i) w =
          (fst (memLimit_doRecovery RecoveryAndGetTopo
                  (newMemLimitHandlerImpl ua) i w),
           charged m,
           snd (memLimit_doRecovery RecoveryAndGetTopo
                  (newMemLimitHandlerImpl ua) i w))) /\
     (ua = false ->
        Recovery m (Some i) w = (Some errNoHandler, charged m, w))).
Proof.
  split.
  - intros h e. unfold memLimit_chooseHandlerImpl.
    rewrite <- strings_Contains_occurs.
    destruct (strings_Contains (Error e) memLimitErrPattern),
      (useAutoScaler h); simpl; intuition congruence.
  - intros m ua i e w Hhs Hcur Hmax He Hlt Hi Hocc.
    apply strings_Contains_occurs in Hocc.
    rewrite (Recovery_charged m i e w Hcur Hmax He Hi Hlt), Hhs.
    cbn [scanHandlers memLimitHandler chooseHandlerImpl doRecovery].
    unfold memLimit_chooseHandlerImpl. rewrite Hocc.
    split; intros ->; reflexivity.
Qed.

(** *** Holding results *)

Lemma to_uint64_add_r (a b : Z) :
  to_uint64 (a + to_uint64 b) = to_uint64 (a + b).
Proof. unfold to_uint64. apply Zplus_mod_idemp_r. Qed.

Lemma to_uint64_add_l (a b : Z) :
  to_uint64 (to_uint64 a + b) = to_uint64 (a + b).
Proof. unfold to_uint64. apply Zplus_mod_idemp_l. Qed.

Lemma sumRows_snoc (cs : list Chunk) (chk : Chunk) :
  sumRows (cs ++ [chk]) = sumRows cs + NumRows chk.
Proof.
  unfold sumRows. induction cs as [|c cs IH]; simpl; [lia|].
  rewrite IH. lia.
Qed.

Lemma holdAll_rows (m : Handler) (cs : list Chunk) :
  is_uint64 (NumHoldRows m) ->
  NumHoldRows (holdAll m cs) = to_uint64 (NumHoldRows m + sumRows cs).
Proof.
  intros Hm. induction cs as [|chk cs IH] using rev_ind.
  - simpl. rewrite Z.add_0_r, to_uint64_id; [reflexivity | exact Hm].
  - rewrite holdAll_snoc, sumRows_snoc.
    unfold NumHoldRows in *. simpl. rewrite IH.
    rewrite to_uint64_add_r, to_uint64_add_l. f_equal. lia.
Qed.

Lemma sumRows_nonneg (cs : list Chunk) :
  Forall (fun chk => 0 <= NumRows chk) cs -> 0 <= sumRows cs.
Proof.
  induction 1 as [|c cs Hc _ IH]; simpl; [lia|].
  unfold sumRows in *. simpl. lia.
Qed.

(** C6, amended. Starting from a holder without rows and chunks (a new
    one or one just reset), after [HoldResult] is called on each chunk of a
    list and nothing else, [NumHoldRows()] is the sum of their row counts
    modulo 2^64, hence that sum when the counts are not negative and the
    sum is below 2^64, and [NumHoldChk()] is their number.  Each insert
    appends the chunk whatever the latch says, calls [Consume] on the
    tracker with the chunk's memory usage, and sets [cannotHold] when the
    row count after it is at least the capacity. *)
Theorem HoldResult_accumulates :
  (forall ua cap en parent,
     let m : Handler := NewRecoveryHandler RecoveryAndGetTopo ua cap en parent in
     NumHoldRows m = 0 /\ chks (holder m) = []) /\
  (forall m : Handler,
     NumHoldRows (ResetHolder m) = 0 /\ chks (holder (ResetHolder m)) = []) /\
  (forall (m : Handler) (cs : list Chunk),
     NumHoldRows m = 0 -> chks (holder m) = [] ->
     NumHoldRows (holdAll m cs) = to_uint64 (sumRows cs) /\
     (Forall (fun chk => 0 <= NumRows chk) cs -> sumRows cs < 2 ^ 64 ->
        NumHoldRows (holdAll m cs) = sumRows cs) /\
     NumHoldChk (holdAll m cs) = Z.of_nat (List.length cs) /\
     chks (holder (holdAll m cs)) = cs /\
     calls (memTracker (holder (holdAll m cs))) =
       calls (memTracker (holder m))
       ++ map (fun chk => Consume (MemoryUsage chk)) cs) /\
  (forall (m : Handler) (chk : Chunk),
     let m' := HoldResult m chk in
     chks (holder m') = chks (holder m) ++ [chk] /\
     NumHoldRows m' = to_uint64 (NumHoldRows m + to_uint64 (NumRows chk)) /\
     memTracker (holder m') =
       Tracker_Consume (memTracker (holder m)) (MemoryUsage chk) /\
     (capacity (holder m) <= NumHoldRows m' ->
        cannotHold (holder m') = true) /\
     (NumHoldRows m' < capacity (holder m) ->
        cannotHold (holder m') = cannotHold (holder m))).
Proof.
  split; [|split; [|split]].
  - intros. split; reflexivity.
  - intros. split; reflexivity.
  - intros m cs Hrows Hchks.
    assert (Hr : NumHoldRows (holdAll m cs) = to_uint64 (sumRows cs)).
    { rewrite holdAll_rows by (rewrite Hrows; unfold is_uint64; lia).
      rewrite Hrows. reflexivity. }
    split; [exact Hr|]. split; [|split; [|split]].
    + intros Hnn Hlt. rewrite Hr. apply to_uint64_id.
      split; [apply sumRows_nonneg; exact Hnn | exact Hlt].
    + unfold NumHoldChk. rewrite holdAll_chks, Hchks. reflexivity.
    + rewrite holdAll_chks, Hchks. reflexivity.
    + apply holdAll_calls.
  - intros m chk. cbv zeta. unfold NumHoldRows. simpl.
    split; [reflexivity|]. split; [reflexivity|]. split; [reflexivity|].
    split; intros H.
    + apply Z.leb_le in H. rewrite H. reflexivity.
    + apply Z.leb_gt in H. rewrite H. reflexivity.
Qed.

(** C7. After [ResetHolder]: [CanHoldResult()] is true whenever the
    capacity is positive, [NumHoldRows()] and [NumHoldChk()] are zero, the
    tracker has received [Detach] as its last call, and [enable], the
    capacity and [maxRecoveryCnt] are what they were. *)
Theorem ResetHolder_spec (m : Handler) :
  let m' := ResetHolder m in
  (0 < capacity (holder m) -> CanHoldResult m' = true) /\
  NumHoldRows m' = 0 /\
  NumHoldChk m' = 0 /\
  detached (memTracker (holder m')) = true /\
  calls (memTracker (holder m')) = calls (memTracker (holder m)) ++ [Detach] /\
  enable m' = enable m /\
  capacity (holder m') = capacity (holder m) /\
  maxRecoveryCnt m' = maxRecoveryCnt m.
Proof.
  cbv zeta. unfold CanHoldResult, NumHoldRows, NumHoldChk, detached. simpl.
  repeat split.
  - intros H. apply Z.ltb_lt in H. rewrite H. reflexivity.
  - rewrite rev_app_distr. reflexivity.
Qed.

(** C8, amended. The constructor takes [useAutoScaler], the capacity of the
    holder, [enable] and the parent tracker, and nothing else: whatever
    they are, [maxRecoveryCnt] is 3 and [curRecoveryCnt] is 0, and no call
    changes [maxRecoveryCnt] afterwards. *)
Theorem NewRecoveryHandler_fields :
  (forall ua cap en parent,
     let m : Handler := NewRecoveryHandler RecoveryAndGetTopo ua cap en parent in
     maxRecoveryCnt m = 3 /\
     curRecoveryCnt m = 0 /\
     enable m = en /\
     handlers m =
       [memLimitHandler RecoveryAndGetTopo (newMemLimitHandlerImpl ua)] /\
     holder m = newMPPResultHolder cap parent /\
     capacity (holder m) = cap /\
     memTracker (holder m) = memory_NewTracker (Label parent) 0) /\
  (forall m : Handler,
     reachable RecoveryAndGetTopo m -> maxRecoveryCnt m = 3).
Proof.
  split.
  - intros. repeat split.
  - intros m Hr. apply (reachable_counters m Hr).
Qed.

(** *** The row count between two resets *)

Lemma step_rows (c : Call) (m : Handler) (w : World) :
  is_reset c = false ->
  is_uint64 (NumHoldRows m) ->
  NumHoldRows (fst (step c (m, w))) = to_uint64 (NumHoldRows m + rowsAdded c).
Proof.
  intros Hc Hm. rewrite step_after. destruct c; try discriminate.
  - reflexivity.
  - cbn [rowsAdded]. rewrite Z.add_0_r, to_uint64_id by exact Hm.
    unfold NumHoldRows, PopFrontChk. destruct (enable m); simpl;
      [|reflexivity].
    destruct (chks (holder m)); reflexivity.
  - cbn [rowsAdded]. rewrite Z.add_0_r, to_uint64_id by exact Hm.
    destruct (Recovery_effect m info w) as [-> | [_ ->]]; reflexivity.
Qed.

Lemma rowsAdded_nonneg (c : Call) : 0 <= rowsAdded c.
Proof.
  destruct c; simpl; try lia. apply to_uint64_range.
Qed.

Lemma sumAdded_nonneg (cs : list Call) : 0 <= sumAdded cs.
Proof.
  induction cs as [|c cs IH]; unfold sumAdded in *; simpl; [lia|].
  pose proof (rowsAdded_nonneg c). lia.
Qed.

Lemma run_rows (cs : list Call) (m : Handler) (w : World) :
  forallb (fun c => negb (is_reset c)) cs = true ->
  is_uint64 (NumHoldRows m) ->
  NumHoldRows m + sumAdded cs < 2 ^ 64 ->
  NumHoldRows (fst (run cs (m, w))) = NumHoldRows m + sumAdded cs.
Proof.
  revert m w. induction cs as [|c cs IH]; intros m w Hcs Hm Hlt.
  - unfold sumAdded. simpl. lia.
  - simpl in Hcs. apply andb_prop in Hcs as [Hc Hcs].
    apply negb_true_iff in Hc.
    change (sumAdded (c :: cs)) with (rowsAdded c + sumAdded cs) in *.
    pose proof (rowsAdded_nonneg c) as Hc0.
    pose proof (sumAdded_nonneg cs) as Hcs0.
    pose proof (step_rows c m w Hc Hm) as Hstep.
    rewrite to_uint64_id in Hstep by (unfold is_uint64 in *; lia).
    rewrite run_cons. destruct (step c (m, w)) as [m' w']. simpl in Hstep.
    rewrite IH; try assumption.
    + lia.
    + unfold is_uint64 in *. lia.
    + lia.
Qed.

(** C9, amended. Under a call other than [ResetHolder] the row count of
    the holder changes as follows: an insert makes it the old count plus
    the chunk's row count modulo 2^64, so it grows by the chunk's row count
    whenever that sum stays below 2^64; [PopFrontChk], also when it returns
    a chunk, and [Recovery] leave it as it is.  Hence over any sequence of
    calls without [ResetHolder] whose added rows keep the count below 2^64
    the row count does not decrease. *)
Theorem NumHoldRows_between_resets (m : Handler) (w : World) :
  (forall chk,
     NumHoldRows (fst (step (CallHoldResult chk) (m, w))) =
       to_uint64 (NumHoldRows m + to_uint64 (NumRows chk))) /\
  (forall chk,
     is_uint64 (NumHoldRows m) -> 0 <= NumRows chk ->
     NumHoldRows m + NumRows chk < 2 ^ 64 ->
     NumHoldRows (fst (step (CallHoldResult chk) (m, w))) =
       NumHoldRows m + NumRows chk) /\
  NumHoldRows (fst (step CallPopFrontChk (m, w))) = NumHoldRows m /\
  NumHoldRows (snd (PopFrontChk m)) = NumHoldRows m /\
  (forall info,
     NumHoldRows (fst (step (CallRecovery info) (m, w))) = NumHoldRows m) /\
  (forall cs,
     forallb (fun c => negb (is_reset c)) cs = true ->
     is_uint64 (NumHoldRows m) ->
     NumHoldRows m + sumAdded cs < 2 ^ 64 ->
     NumHoldRows (fst (run cs (m, w))) = NumHoldRows m + sumAdded cs /\
     NumHoldRows m <= NumHoldRows (fst (run cs (m, w)))).
Proof.
  assert (Hpop : NumHoldRows (snd (PopFrontChk m)) = NumHoldRows m).
  { unfold NumHoldRows, PopFrontChk. destruct (enable m); simpl;
      [|reflexivity].
    destruct (chks (holder m)); reflexivity. }
  split; [|split; [|split; [|split; [|split]]]].
  - intros chk. reflexivity.
  - intros chk Hm Hc Hlt. rewrite step_after.
    unfold NumHoldRows in *. simpl.
    rewrite (to_uint64_id (NumRows chk)) by (unfold is_uint64 in *; lia).
    apply to_uint64_id. unfold is_uint64 in *. lia.
  - rewrite step_after. exact Hpop.
  - exact Hpop.
  - intros info. rewrite step_after.
    destruct (Recovery_effect m info w) as [-> | [_ ->]]; reflexivity.
  - intros cs Hcs Hm Hlt.
    rewrite (run_rows cs m w Hcs Hm Hlt).
    pose proof (sumAdded_nonneg cs). split; lia.
Qed.

(** *** The budget and [ResetHolder] *)

Lemma step_exhausted (c : Call) (m : Handler) (w : World) :
  maxRecoveryCnt m <= curRecoveryCnt m ->
  let m' := fst (step c (m, w)) in
  enable m' = enable m /\
  curRecoveryCnt m' = curRecoveryCnt m /\
  maxRecoveryCnt m' = maxRecoveryCnt m.
Proof.
  intros Hle. cbv zeta. rewrite step_after. destruct c.
  - repeat split.
  - destruct (PopFrontChk_counters m) as (-> & -> & -> & _). repeat split.
  - repeat split.
  - destruct (Recovery_effect m info w) as [-> | [Hlt _]];
      [repeat split | lia].
Qed.

Lemma run_exhausted (cs : list Call) (m : Handler) (w : World) :
  maxRecoveryCnt m <= curRecoveryCnt m ->
  let m' := fst (run cs (m, w)) in
  enable m' = enable m /\
  curRecoveryCnt m' = curRecoveryCnt m /\
  maxRecoveryCnt m' = maxRecoveryCnt m.
Proof.
  revert m w. induction cs as [|c cs IH]; intros m w Hle; cbv zeta.
  - repeat split.
  - rewrite run_cons.
    destruct (step_exhausted c m w Hle) as (He & Hc & Hm).
    destruct (step c (m, w)) as [m1 w1]. simpl in He, Hc, Hm.
    destruct (IH m1 w1) as (He' & Hc' & Hm'); [lia|].
    rewrite He', Hc', Hm', He, Hc, Hm. repeat split.
Qed.

(** C10, amended. [ResetHolder] leaves [curRecoveryCnt] as it is.  Once
    the counter has reached the budget on a receiver that is switched on,
    then after any calls whatever, [ResetHolder] among them, the counter is
    the same, a call of [Recovery] with a request and a failure that are
    not nil fails with the exceeds error, and every call of [Recovery]
    fails and leaves the receiver and the service as they are. *)
Theorem ResetHolder_keeps_budget :
  (forall m : Handler,
     curRecoveryCnt (ResetHolder m) = curRecoveryCnt m /\
     maxRecoveryCnt (ResetHolder m) = maxRecoveryCnt m) /\
  (forall (m : Handler) (w : World) (cs : list Call),
     enable m = true ->
     maxRecoveryCnt m <= curRecoveryCnt m ->
     let m' := fst (run cs (m, w)) in
     let w' := snd (run cs (m, w)) in
     curRecoveryCnt m' = curRecoveryCnt m /\
     (forall i e,
        MPPErr i = Some e ->
        Recovery m' (Some i) w' =
          (Some (errors_Errorf_exceeds (curRecoveryCnt m) (maxRecoveryCnt m)),
           m', w')) /\
     (forall info,
        outcome (Recovery m' info w') <> None /\
        after (Recovery m' info w') = m' /\
        world_after (Recovery m' info w') = w')).
Proof.
  split.
  - intros m. split; reflexivity.
  - intros m w cs He Hle. cbv zeta.
    destruct (run_exhausted cs m w Hle) as (He' & Hc' & Hm').
    set (m' := fst (run cs (m, w))) in *.
    set (w' := snd (run cs (m, w))).
    rewrite He in He'.
    assert (Hle' : maxRecoveryCnt m' <= curRecoveryCnt m') by lia.
    split; [exact Hc'|]. split.
    + intros i e Hi.
      rewrite (Recovery_exceeds m' i e w' He' Hi Hle'), Hc', Hm'.
      reflexivity.
    + intros info. unfold outcome, after, world_after.
      destruct info as [i|].
      * destruct (MPPErr i) as [e|] eqn:Hi.
        -- rewrite (Recovery_exceeds m' i e w' He' Hi Hle'). simpl.
           repeat split. discriminate.
        -- rewrite (Recovery_nil m' (Some i) w' He');
             [|right; exists i; split; [reflexivity | exact Hi]].
           simpl. repeat split. discriminate.
      * rewrite (Recovery_nil m' None w' He'); [|left; reflexivity].
        simpl. repeat split. discriminate.
Qed.

End Properties.

(** ** Examples *)

(** C1 at a receiver with two handlers: the first does not choose the
    failure, the second does, and its failure is what [Recovery] returns;
    the attempt is charged. *)
Lemma Recovery_order_example :
  is_uint32 (curRecoveryCnt sampleTwoHandlers) /\
  is_uint32 (maxRecoveryCnt sampleTwoHandlers) /\
  (outcome (Recovery sampleTwoHandlers (Some memLimitInfo) 0%nat),
   world_after (Recovery sampleTwoHandlers (Some memLimitInfo) 0%nat))
  = (Some (errors_New "gave up"), 1%nat) /\
  RecoveryCnt (after (Recovery sampleTwoHandlers (Some memLimitInfo) 0%nat))
  = 2.
Proof.
  assert (Hcur : is_uint32 (curRecoveryCnt sampleTwoHandlers))
    by (unfold is_uint32; simpl; lia).
  assert (Hmax : is_uint32 (maxRecoveryCnt sampleTwoHandlers))
    by (unfold is_uint32; simpl; lia).
  split; [exact Hcur|]. split; [exact Hmax|].
  destruct (Recovery_order sampleTwoHandlers (Some memLimitInfo) 0%nat
              Hcur Hmax) as (_ & _ & _ & H).
  destruct (H memLimitInfo memLimitFailure eq_refl eq_refl eq_refl)
    as (Hcnt & _ & Hfirst & _); [simpl; lia|].
  split; [|exact Hcnt].
  apply (Hfirst [memLimitHandler sampleService (newMemLimitHandlerImpl false)]
           givingUpHandler []).
  - reflexivity.
  - intros h [<- | []]. reflexivity.
  - reflexivity.
Defined.

Lemma sample_unclassifiable (ua : bool) :
  unclassifiable (sampleNew ua 100 true) otherInfo.
Proof.
  exists otherFailure. split; [reflexivity|].
  intros h [<- | []]. destruct ua; reflexivity.
Defined.

(** C2: scenario B on a new receiver, and the bound in a state reached by
    one charged attempt. *)
Lemma RecoveryCnt_within_budget_example :
  let m := sampleNew true 100 true in
  let r1 := Recovery m (Some otherInfo) 0%nat in
  let r2 := Recovery (after r1) (Some otherInfo) (world_after r1) in
  let r3 := Recovery (after r2) (Some otherInfo) (world_after r2) in
  let r4 := Recovery (after r3) (Some otherInfo) (world_after r3) in
  curRecoveryCnt (after r1) <= maxRecoveryCnt (after r1) /\
  (outcome r1 = Some errNoHandler /\ RecoveryCnt (after r1) = 1) /\
  (outcome r2 = Some errNoHandler /\ RecoveryCnt (after r2) = 2) /\
  (outcome r3 = Some errNoHandler /\ RecoveryCnt (after r3) = 3) /\
  (outcome r4 = Some (errors_Errorf_exceeds 3 3) /\
   RecoveryCnt (after r4) = 3).
Proof.
  destruct (RecoveryCnt_within_budget sampleService) as [Hinv Hscen].
  split.
  - apply Hinv.
    apply (reach_step sampleService (sampleNew true 100 true) 0%nat
             (CallRecovery (Some otherInfo))).
    apply reach_new.
  - apply (Hscen (sampleNew true 100 true) 0%nat
             otherInfo otherInfo otherInfo otherInfo);
      try reflexivity; apply sample_unclassifiable.
Defined.

(** C3 on scenario A: the second insert reaches the capacity and sets the
    latch; a pop, and further calls without reset, keep it; the reset
    clears it. *)
Lemma cannotHold_latch_example :
  cannotHold (holder sampleHeld60) = false /\
  cannotHold
    (holder (fst (step (CallHoldResult chunk50) (sampleHeld60, 0%nat))))
  = true /\
  cannotHold (holder (fst (step CallPopFrontChk (sampleHeld110, 0%nat))))
  = true /\
  cannotHold
    (holder (fst (run [CallPopFrontChk; CallHoldResult chunk50;
                       CallRecovery None] (sampleHeld110, 0%nat))))
  = true /\
  cannotHold (holder (fst (step CallResetHolder (sampleHeld110, 0%nat))))
  = false.
Proof.
  split; [reflexivity|]. split; [|split; [|split]].
  - destruct (cannotHold_latch (CallHoldResult chunk50) sampleHeld60 0%nat)
      as (_ & Hset & _).
    apply (Hset chunk50); [reflexivity | vm_compute; discriminate].
  - destruct (cannotHold_latch CallPopFrontChk sampleHeld110 0%nat)
      as (_ & _ & _ & Hkeep & _).
    apply Hkeep; [reflexivity | discriminate].
  - destruct (cannotHold_latch CallPopFrontChk sampleHeld110 0%nat)
      as (_ & _ & _ & _ & Hrun & _).
    apply Hrun; reflexivity.
  - destruct (cannotHold_latch CallResetHolder sampleHeld110 0%nat)
      as (_ & _ & _ & _ & _ & Hreset & _).
    apply Hreset. reflexivity.
Defined.

(** C4 on scenario A: the pop returns the chunk of 60 rows, releases its
    1920 bytes and keeps the row count; two pops return both chunks in the
    order they were held. *)
Lemma PopFrontChk_spec_example :
  fst (PopFrontChk sampleHeld110) = Some chunk60 /\
  chks (holder (snd (PopFrontChk sampleHeld110))) = [chunk50] /\
  calls (memTracker (holder (snd (PopFrontChk sampleHeld110))))
  = [Consume 1920; Consume 1600; Consume (-1920)] /\
  CanHoldResult (snd (PopFrontChk sampleHeld110)) = false /\
  NumHoldRows (snd (PopFrontChk sampleHeld110)) = 110 /\
  fst (drain 2 (holdAll (sampleNew false 100 true) [chunk60; chunk50]))
  = [chunk60; chunk50].
Proof.
  destruct (PopFrontChk_spec sampleHeld110) as (_ & _ & Hpop & _).
  destruct (Hpop chunk60 [chunk50] eq_refl eq_refl)
    as (Hret & Hrest & _ & Hcalls & _ & Hcan & Hrows & _).
  split; [exact Hret|]. split; [exact Hrest|]. split.
  { rewrite Hcalls; [reflexivity | simpl; lia]. }
  split; [exact Hcan|]. split; [exact Hrows|].
  destruct (PopFrontChk_spec (sampleNew false 100 true)) as (_ & _ & _ & Hdrain).
  apply (Hdrain [chunk60; chunk50] 2%nat). reflexivity.
Defined.

Lemma memLimitFailure_text :
  exists pre post,
    Error memLimitFailure = (pre ++ memLimitErrPattern ++ post)%string.
Proof.
  exists "Code: 241, "%string, " (total) exceeded"%string. reflexivity.
Defined.

(** C5 at a failure whose text contains "Memory limit": with the
    auto-scaler the service is called once and its success is returned;
    without it the no-handler error is returned and the service is not
    called. *)
Lemma memLimit_classification_example :
  memLimit_chooseHandlerImpl (newMemLimitHandlerImpl true) memLimitFailure
  = true /\
  Recovery (sampleNew true 100 true) (Some memLimitInfo) 0%nat
  = (None, charged (sampleNew true 100 true), 1%nat) /\
  Recovery (sampleNew false 100 true) (Some memLimitInfo) 0%nat
  = (Some errNoHandler, charged (sampleNew false 100 true), 0%nat).
Proof.
  destruct (memLimit_classification sampleService) as [Hchoose Hroute].
  split; [|split].
  - apply Hchoose. split; [exact memLimitFailure_text | reflexivity].
  - assert (H03 : is_uint32 0 /\ is_uint32 3 /\ 0 < 3)
      by (unfold is_uint32; lia).
    destruct H03 as (H0 & H3 & Hlt).
    destruct (Hroute (sampleNew true 100 true) true memLimitInfo
                memLimitFailure 0%nat eq_refl H0 H3 eq_refl Hlt eq_refl
                memLimitFailure_text) as [Hyes _].
    rewrite (Hyes eq_refl). reflexivity.
  - assert (H03 : is_uint32 0 /\ is_uint32 3 /\ 0 < 3)
      by (unfold is_uint32; lia).
    destruct H03 as (H0 & H3 & Hlt).
    destruct (Hroute (sampleNew false 100 true) false memLimitInfo
                memLimitFailure 0%nat eq_refl H0 H3 eq_refl Hlt eq_refl
                memLimitFailure_text) as [_ Hno].
    exact (Hno eq_refl).
Defined.

(** C6 on scenario A: 60 and 50 rows held make 110 rows in 2 chunks. *)
Lemma HoldResult_accumulates_example :
  NumHoldRows (holdAll (sampleNew false 100 true) [chunk60; chunk50]) = 110 /\
  NumHoldChk (holdAll (sampleNew false 100 true) [chunk60; chunk50]) = 2 /\
  calls (memTracker
           (holder (holdAll (sampleNew false 100 true) [chunk60; chunk50])))
  = [Consume 1920; Consume 1600].
Proof.
  destruct (HoldResult_accumulates sampleService) as (_ & _ & Hsum & _).
  destruct (Hsum (sampleNew false 100 true) [chunk60; chunk50]
              eq_refl eq_refl) as (_ & Hrows & Hchk & _ & Hcalls).
  split; [|split].
  - rewrite Hrows; [reflexivity| |vm_compute; reflexivity].
    repeat constructor; simpl; lia.
  - exact Hchk.
  - exact Hcalls.
Defined.

(** Three chunks of 2^63 - 1 rows each: the row counts are valid [int]s,
    their sum is 3 * 2^63 - 3, and [NumHoldRows()] is 2^63 - 3. *)
Lemma HoldResult_sum_wraps :
  Forall (fun chk => 0 <= NumRows chk < 2 ^ 63)
    [chunkHuge; chunkHuge; chunkHuge] /\
  sumRows [chunkHuge; chunkHuge; chunkHuge] = 3 * 2 ^ 63 - 3 /\
  NumHoldRows
    (holdAll (sampleNew false 100 true) [chunkHuge; chunkHuge; chunkHuge])
  = 2 ^ 63 - 3 /\
  NumHoldRows
    (holdAll (sampleNew false 100 true) [chunkHuge; chunkHuge; chunkHuge])
  <> sumRows [chunkHuge; chunkHuge; chunkHuge].
Proof.
  split; [|split; [|split]].
  - repeat constructor; vm_compute; congruence.
  - vm_compute. reflexivity.
  - vm_compute. reflexivity.
  - vm_compute. discriminate.
Qed.

(** C7 on scenario A. *)
Lemma ResetHolder_spec_example :
  0 < capacity (holder sampleHeld110) /\
  CanHoldResult sampleHeld110 = false /\
  CanHoldResult (ResetHolder sampleHeld110) = true /\
  NumHoldRows (ResetHolder sampleHeld110) = 0 /\
  NumHoldChk (ResetHolder sampleHeld110) = 0 /\
  calls (memTracker (holder (ResetHolder sampleHeld110)))
  = [Consume 1920; Consume 1600; Detach].
Proof.
  assert (Hcap : 0 < capacity (holder sampleHeld110)) by (simpl; lia).
  destruct (ResetHolder_spec sampleHeld110)
    as (Hcan & Hrows & Hchk & _ & Hcalls & _).
  split; [exact Hcap|]. split; [reflexivity|].
  split; [exact (Hcan Hcap)|]. split; [exact Hrows|].
  split; [exact Hchk | exact Hcalls].
Defined.

(** C8: the budget of a receiver reached by calls is still 3. *)
Lemma NewRecoveryHandler_fields_example :
  maxRecoveryCnt (sampleNew true 0 false) = 3 /\
  maxRecoveryCnt
    (fst (step (CallRecovery (Some otherInfo))
            (sampleNew false 100 true, 0%nat))) = 3.
Proof.
  destruct (NewRecoveryHandler_fields sampleService) as [Hnew Hreach].
  split.
  - apply (Hnew true 0 false sampleParent).
  - apply Hreach. apply reach_step. apply reach_new.
Defined.

(** No arguments of the constructor give a budget of 5. *)
Lemma maxRecoveryCnt_not_settable :
  maxRecoveryCnt (sampleNew true 100 true) = 3 /\
  ~ (exists useAutoScaler holderCap enable parent,
       maxRecoveryCnt
         (NewRecoveryHandler sampleService useAutoScaler holderCap enable
            parent) = 5).
Proof.
  split; [reflexivity|].
  intros (ua & cap & en & parent & H). simpl in H. discriminate.
Qed.

(** C9 on scenario A: from 60 rows, an insert of 50 rows and a pop make
    110 rows. *)
Lemma NumHoldRows_between_resets_example :
  NumHoldRows
    (fst (run [CallHoldResult chunk50; CallPopFrontChk]
            (sampleHeld60, 0%nat))) = 110 /\
  NumHoldRows sampleHeld60 <=
  NumHoldRows
    (fst (run [CallHoldResult chunk50; CallPopFrontChk]
            (sampleHeld60, 0%nat))).
Proof.
  destruct (NumHoldRows_between_resets sampleHeld60 0%nat)
    as (_ & _ & _ & _ & _ & Hrun).
  destruct (Hrun [CallHoldResult chunk50; CallPopFrontChk]) as [Heq Hle].
  - reflexivity.
  - unfold is_uint64. vm_compute. split; congruence.
  - vm_compute. reflexivity.
  - split; [rewrite Heq; reflexivity | exact Hle].
Defined.

(** After two chunks of 2^63 - 1 rows, with no reset since the
    constructor, holding a third one makes the row count smaller. *)
Lemma NumHoldRows_decreases_on_wrap :
  NumHoldRows sampleHeldHuge = 2 ^ 64 - 2 /\
  NumHoldRows (HoldResult sampleHeldHuge chunkHuge) = 2 ^ 63 - 3 /\
  NumHoldRows (HoldResult sampleHeldHuge chunkHuge)
  < NumHoldRows sampleHeldHuge.
Proof.
  split; [|split]; vm_compute; reflexivity.
Qed.

(** C10 after scenario B: resets do not give attempts back. *)
Lemma ResetHolder_keeps_budget_example :
  curRecoveryCnt sampleExhausted = 3 /\
  Recovery
    (fst (run [CallResetHolder; CallResetHolder] (sampleExhausted, 0%nat)))
    (Some memLimitInfo)
    (snd (run [CallResetHolder; CallResetHolder] (sampleExhausted, 0%nat)))
  = (Some (errors_Errorf_exceeds 3 3),
     fst (run [CallResetHolder; CallResetHolder] (sampleExhausted, 0%nat)),
     snd (run [CallResetHolder; CallResetHolder] (sampleExhausted, 0%nat))).
Proof.
  split; [reflexivity|].
  destruct (@ResetHolder_keeps_budget nat) as [_ Hrun].
  destruct (Hrun sampleExhausted 0%nat [CallResetHolder; CallResetHolder])
    as (_ & Hexceeds & _).
  - reflexivity.
  - vm_compute. discriminate.
  - apply (Hexceeds memLimitInfo memLimitFailure). reflexivity.
Defined.

(** With the budget used up and the holder reset, [Recovery(nil)] fails
    with the nil-info error, not with the exceeds error. *)
Lemma Recovery_nil_after_budget :
  enable sampleExhausted = true /\
  curRecoveryCnt sampleExhausted = maxRecoveryCnt sampleExhausted /\
  outcome (Recovery sampleExhausted None 0%nat) = Some errNilInfo /\
  outcome (Recovery sampleExhausted None 0%nat)
  <> Some (errors_Errorf_exceeds (curRecoveryCnt sampleExhausted)
             (maxRecoveryCnt sampleExhausted)).
Proof.
  split; [reflexivity|]. split; [reflexivity|]. split; [reflexivity|].
  vm_compute. discriminate.
Qed.

(** ** Further properties of the handler and its holder *)

Section FurtherProperties.

Context {World : Type} {Topo : Type}.
Variable RecoveryAndGetTopo :
  RecoveryType -> Z -> World -> (Topo * option error) * World.

Abbreviation Handler' := (@RecoveryHandler World).

Lemma run_step_cons (c : Call) (cs : list Call) (s : Handler' * World) :
  run (c :: cs) s = run cs (step c s).
Proof. reflexivity. Qed.

Lemma Recovery_holder (m : Handler') (info : option RecoveryInfo) (w : World) :
  holder (snd (fst (Recovery m info w))) = holder m /\
  enable (snd (fst (Recovery m info w))) = enable m /\
  handlers (snd (fst (Recovery m info w))) = handlers m /\
  maxRecoveryCnt (snd (fst (Recovery m info w))) = maxRecoveryCnt m.
Proof.
  pose proof (Recovery_effect m info w) as H. unfold after in H.
  destruct H as [-> | [_ ->]]; repeat split.
Qed.

Lemma step_fst (c : Call) (m : Handler') (w : World) :
  fst (step c (m, w)) =
    match c with
    | CallHoldResult chk => HoldResult m chk
    | CallPopFrontChk => snd (PopFrontChk m)
    | CallResetHolder => ResetHolder m
    | CallRecovery info => snd (fst (Recovery m info w))
    end.
Proof.
  destruct c; simpl; try reflexivity.
  destruct (Recovery m info w) as [[r m'] w']. reflexivity.
Qed.

Lemma PopFrontChk_cases (m : Handler') :
  (PopFrontChk m = (None, m) /\
   (enable m = false \/ chks (holder m) = [])) \/
  (exists chk rest,
     enable m = true /\ chks (holder m) = chk :: rest /\
     fst (PopFrontChk m) = Some chk /\
     holder (snd (PopFrontChk m)) =
       {| capacity := capacity (holder m);
          cannotHold := true;
          curRows := curRows (holder m);
          chks := rest;
          memTracker :=
            Tracker_Consume (memTracker (holder m))
              (to_int64 (- MemoryUsage chk)) |} /\
     enable (snd (PopFrontChk m)) = true /\
     handlers (snd (PopFrontChk m)) = handlers m /\
     curRecoveryCnt (snd (PopFrontChk m)) = curRecoveryCnt m /\
     maxRecoveryCnt (snd (PopFrontChk m)) = maxRecoveryCnt m).
Proof.
  unfold PopFrontChk. destruct (enable m) eqn:He; simpl.
  - destruct (chks (holder m)) as [|chk rest] eqn:Hc.
    + left. split; [reflexivity | right; reflexivity].
    + right. exists chk, rest. simpl. rewrite He. repeat split.
  - left. split; [reflexivity | left; reflexivity].
Qed.

(** *** What no call changes *)

Lemma step_frame (c : Call) (m : Handler') (w : World) :
  let m' := fst (step c (m, w)) in
  enable m' = enable m /\
  handlers m' = handlers m /\
  maxRecoveryCnt m' = maxRecoveryCnt m /\
  capacity (holder m') = capacity (holder m) /\
  Label (memTracker (holder m')) = Label (memTracker (holder m)) /\
  bytesLimit (memTracker (holder m')) = bytesLimit (memTracker (holder m)).
Proof.
  cbv zeta. rewrite step_fst. destruct c.
  - repeat split.
  - destruct (PopFrontChk_cases m)
      as [[-> _] | (chk & rest & He & _ & _ & Hh & He' & Hhs & _ & Hmax)].
    + repeat split.
    + rewrite Hh, He', Hhs, Hmax, He. repeat split.
  - repeat split.
  - destruct (Recovery_holder m info w) as (-> & -> & -> & ->).
    repeat split.
Qed.

Lemma run_frame (cs : list Call) (m : Handler') (w : World) :
  let m' := fst (run cs (m, w)) in
  enable m' = enable m /\
  handlers m' = handlers m /\
  maxRecoveryCnt m' = maxRecoveryCnt m /\
  capacity (holder m') = capacity (holder m) /\
  Label (memTracker (holder m')) = Label (memTracker (holder m)) /\
  bytesLimit (memTracker (holder m')) = bytesLimit (memTracker (holder m)).
Proof.
  revert m w. induction cs as [|c cs IH]; intros m w; cbv zeta.
  - repeat split.
  - rewrite run_step_cons.
    pose proof (step_frame c m w) as Hs. cbv zeta in Hs.
    destruct (step c (m, w)) as [m1 w1]. simpl in Hs.
    destruct Hs as (<- & <- & <- & <- & <- & <-). apply IH.
Qed.

(** X1. The switch, the handler chain, the budget, the capacity of the
    holder and the label and limit of its tracker are fixed at
    construction: no sequence of calls changes them. *)
Theorem configuration_fixed (cs : list Call) (m : Handler') (w : World) :
  let m' := fst (run cs (m, w)) in
  enable m' = enable m /\
  handlers m' = handlers m /\
  maxRecoveryCnt m' = maxRecoveryCnt m /\
  capacity (holder m') = capacity (holder m) /\
  Label (memTracker (holder m')) = Label (memTracker (holder m)) /\
  bytesLimit (memTracker (holder m')) = bytesLimit (memTracker (holder m)).
Proof. exact (run_frame cs m w). Qed.

(** *** No chunk is lost or duplicated *)

Lemma run_chunks (cs : list Call) (m : Handler') (w : World) :
  forallb (fun c => negb (is_reset c)) cs = true ->
  popped cs (m, w) ++ chks (holder (fst (run cs (m, w))))
  = chks (holder m) ++ heldBy cs.
Proof.
  revert m w. induction cs as [|c cs IH]; intros m w Hcs.
  - simpl. rewrite app_nil_r. reflexivity.
  - simpl in Hcs. apply andb_prop in Hcs as [Hc Hcs].
    rewrite run_step_cons. cbn [popped fst].
    pose proof (step_fst c m w) as Hm1.
    destruct (step c (m, w)) as [m1 w1]. simpl in Hm1.
    rewrite <- app_assoc, (IH m1 w1 Hcs), Hm1.
    destruct c; simpl in Hc; try discriminate; cbn [poppedBy heldBy flat_map].
    + simpl. rewrite <- app_assoc. reflexivity.
    + destruct (PopFrontChk_cases m)
        as [[-> _] | (chk & rest & _ & Hc0 & -> & Hh & _)].
      * reflexivity.
      * rewrite Hh, Hc0. reflexivity.
    + destruct (Recovery_holder m info w) as (-> & _). reflexivity.
Qed.

(** X2. Over any sequence of calls without [ResetHolder], the chunks
    popped so far followed by the chunks still held are the chunks held at
    the start followed by the chunks given to [HoldResult], in the same
    order: nothing is dropped, duplicated or reordered, whether the
    handler is enabled or not. *)
Theorem chunks_conserved (cs : list Call) (m : Handler') (w : World) :
  forallb (fun c => negb (is_reset c)) cs = true ->
  popped cs (m, w) ++ chks (holder (fst (run cs (m, w))))
  = chks (holder m) ++ heldBy cs.
Proof. exact (run_chunks cs m w). Qed.

(** *** The tracker is charged with what is held *)

Lemma consumedSinceDetach_Consume (log : list TrackerCall) (bytes : Z) :
  consumedSinceDetach (log ++ [Consume bytes])
  = consumedSinceDetach log + bytes.
Proof. unfold consumedSinceDetach. rewrite fold_left_app. reflexivity. Qed.

Lemma consumedSinceDetach_Detach (log : list TrackerCall) :
  consumedSinceDetach (log ++ [Detach]) = 0.
Proof. unfold consumedSinceDetach. rewrite fold_left_app. reflexivity. Qed.

Lemma sumMem_snoc (cs : list Chunk) (chk : Chunk) :
  sumMem (cs ++ [chk]) = sumMem cs + MemoryUsage chk.
Proof.
  unfold sumMem. induction cs as [|c cs IH]; simpl; [lia|].
  rewrite IH. lia.
Qed.

Lemma step_balanced (c : Call) (m : Handler') (w : World) :
  callMemOk c -> balanced m -> balanced (fst (step c (m, w))).
Proof.
  intros Hc [Hbal Hok]. rewrite step_fst. unfold balanced. destruct c.
  - simpl in *. rewrite consumedSinceDetach_Consume, sumMem_snoc, Hbal.
    split; [reflexivity|].
    apply Forall_app. split; [exact Hok|].
    constructor; [exact Hc | constructor].
  - destruct (PopFrontChk_cases m)
      as [[-> _] | (chk & rest & _ & Hc0 & _ & Hh & _)].
    + split; assumption.
    + rewrite Hh. simpl. rewrite Hc0 in Hbal, Hok.
      inversion Hok as [|? ? Hchk Hrest]; subst.
      rewrite consumedSinceDetach_Consume, Hbal.
      rewrite to_int64_neg by (unfold memOk in Hchk; lia).
      split; [unfold sumMem; simpl; lia | exact Hrest].
  - simpl. rewrite consumedSinceDetach_Detach. split; [reflexivity|].
    constructor.
  - destruct (Recovery_holder m info w) as (-> & _). split; assumption.
Qed.

(** X3. When every chunk given to [HoldResult] has a memory usage that is
    a size (between 0 and 2^63 - 1), then after any sequence of calls on a
    new handler the [Consume] calls the tracker has received since the
    last [Detach] add up to the memory usage of the chunks that are held:
    each chunk is charged once when held and released once when popped. *)
Theorem tracker_balanced (cs : list Call)
  (useAutoScaler : bool) (holderCap : Z) (enable : bool) (parent : Tracker)
  (w : World) :
  Forall callMemOk cs ->
  let m :=
    fst (run cs
           (NewRecoveryHandler RecoveryAndGetTopo useAutoScaler holderCap
              enable parent, w)) in
  consumedSinceDetach (calls (memTracker (holder m)))
  = sumMem (chks (holder m)).
Proof.
  intros Hcs. cbv zeta.
  assert (H0 : balanced (NewRecoveryHandler RecoveryAndGetTopo useAutoScaler
                           holderCap enable parent)).
  { split; [reflexivity | constructor]. }
  revert H0 w.
  generalize (NewRecoveryHandler RecoveryAndGetTopo useAutoScaler holderCap
                enable parent).
  induction Hcs as [|c cs Hc _ IH]; intros m Hm w.
  - apply Hm.
  - rewrite run_step_cons.
    pose proof (step_balanced c m w Hc Hm) as Hm1.
    destruct (step c (m, w)) as [m1 w1]. apply IH. exact Hm1.
Qed.

(** *** Admission *)

Lemma HoldResult_CanHoldResult (m : Handler') (chk : Chunk) :
  CanHoldResult (HoldResult m chk)
  = (NumHoldRows (HoldResult m chk) <? capacity (holder m))
    && CanHoldResult m.
Proof.
  unfold CanHoldResult, NumHoldRows. simpl.
  set (rows := to_uint64 (curRows (holder m) + to_uint64 (NumRows chk))).
  destruct (Z.leb_spec (capacity (holder m)) rows);
    destruct (Z.ltb_spec rows (capacity (holder m))); try lia;
    destruct (0 <? capacity (holder m)), (cannotHold (holder m));
    reflexivity.
Qed.

(** X4. On a holder without rows whose latch is clear (a new one or one
    just reset), after chunks with non-negative row counts that add up to
    less than 2^64 have been held, [CanHoldResult()] tells whether the rows
    held are fewer than the capacity. *)
Theorem CanHoldResult_after_holds (m : Handler') (cs : list Chunk) :
  NumHoldRows m = 0 ->
  cannotHold (holder m) = false ->
  Forall (fun chk => 0 <= NumRows chk) cs ->
  sumRows cs < 2 ^ 64 ->
  CanHoldResult (holdAll m cs) = (sumRows cs <? capacity (holder m)).
Proof.
  intros Hrows Hlatch. induction cs as [|chk cs IH] using rev_ind;
    intros Hnn Hlt.
  - unfold CanHoldResult. simpl. rewrite Hlatch. apply andb_true_r.
  - apply Forall_app in Hnn as [Hcs Hchk].
    inversion Hchk as [|? ? Hc _]; subst.
    rewrite sumRows_snoc in *.
    pose proof (sumRows_nonneg cs Hcs) as H0.
    rewrite holdAll_snoc, HoldResult_CanHoldResult.
    destruct (holdAll_frame m cs) as (_ & _ & _ & _ & ->).
    rewrite IH by (assumption || lia).
    assert (Hr : NumHoldRows (HoldResult (holdAll m cs) chk)
                 = sumRows cs + NumRows chk).
    { unfold NumHoldRows. simpl.
      change (curRows (holder (holdAll m cs)))
        with (NumHoldRows (holdAll m cs)).
      rewrite holdAll_rows by (rewrite Hrows; unfold is_uint64; lia).
      rewrite Hrows, Z.add_0_l, to_uint64_add_r, to_uint64_add_l.
      apply to_uint64_id. unfold is_uint64. lia. }
    rewrite Hr.
    destruct (Z.ltb_spec (sumRows cs + NumRows chk) (capacity (holder m)));
      destruct (Z.ltb_spec (sumRows cs) (capacity (holder m)));
      simpl; try reflexivity; lia.
Qed.

(** X5. A holder of capacity 0 never can hold a result, whatever calls
    are made. *)
Theorem zero_capacity_never_holds (cs : list Call) (m : Handler') (w : World) :
  capacity (holder m) = 0 ->
  CanHoldResult (fst (run cs (m, w))) = false.
Proof.
  intros Hcap. unfold CanHoldResult.
  destruct (run_frame cs m w) as (_ & _ & _ & -> & _).
  rewrite Hcap. reflexivity.
Qed.

(** *** A handler that is switched off *)

Lemma run_disabled (cs : list Call) (m : Handler') (w : World) :
  enable m = false ->
  popped cs (m, w) = [] /\
  snd (run cs (m, w)) = w /\
  curRecoveryCnt (fst (run cs (m, w))) = curRecoveryCnt m.
Proof.
  revert m w. induction cs as [|c cs IH]; intros m w He.
  - repeat split.
  - rewrite run_step_cons. cbn [popped fst].
    assert (Hstep : poppedBy c m = [] /\ snd (step c (m, w)) = w /\
                    enable (fst (step c (m, w))) = false /\
                    curRecoveryCnt (fst (step c (m, w))) = curRecoveryCnt m).
    { destruct c; simpl.
      - repeat split. exact He.
      - rewrite (PopFrontChk_none m (or_introl He)). simpl.
        repeat split. exact He.
      - repeat split. exact He.
      - rewrite (Recovery_disabled m info w He). simpl.
        repeat split. exact He. }
    destruct Hstep as (-> & Hw & He1 & Hc1).
    destruct (step c (m, w)) as [m1 w1]. simpl in Hw, He1, Hc1. subst w1.
    destruct (IH m1 w He1) as (-> & -> & ->).
    repeat split. exact Hc1.
Qed.

(** X6. While the handler is switched off, no sequence of calls returns a
    chunk, charges an attempt or reaches the topology service, and
    [Recovery] keeps failing with the not-enabled error.  [HoldResult]
    does not look at the switch: without a reset the chunks it is given
    pile up in the holder. *)
Theorem disabled_handler_inert (cs : list Call) (m : Handler') (w : World) :
  enable m = false ->
  let m' := fst (run cs (m, w)) in
  popped cs (m, w) = [] /\
  snd (run cs (m, w)) = w /\
  curRecoveryCnt m' = curRecoveryCnt m /\
  (forall info w', Recovery m' info w' = (Some errNotEnabled, m', w')) /\
  fst (PopFrontChk m') = None /\
  (forallb (fun c => negb (is_reset c)) cs = true ->
     chks (holder m') = chks (holder m) ++ heldBy cs).
Proof.
  intros He. cbv zeta.
  destruct (run_disabled cs m w He) as (Hpop & Hw & Hcnt).
  assert (He' : enable (fst (run cs (m, w))) = false).
  { destruct (run_frame cs m w) as (-> & _). exact He. }
  split; [exact Hpop|]. split; [exact Hw|]. split; [exact Hcnt|].
  split; [|split].
  - intros info w'. apply Recovery_disabled. exact He'.
  - rewrite (PopFrontChk_none _ (or_introl He')). reflexivity.
  - intros Hcs. rewrite <- (run_chunks cs m w Hcs), Hpop. reflexivity.
Qed.

(** *** The budget, once used up *)

Lemma Recovery_exhausted_world
  (m : Handler') (info : option RecoveryInfo) (w : World) :
  maxRecoveryCnt m <= curRecoveryCnt m ->
  snd (Recovery m info w) = w.
Proof.
  intros Hle. unfold Recovery.
  destruct (enable m); simpl; [|reflexivity].
  destruct info as [i|]; [|reflexivity].
  destruct (MPPErr i) as [e|]; [|reflexivity].
  apply Z.leb_le in Hle. rewrite Hle. reflexivity.
Qed.

(** X7. Once the counter has reached the budget, no sequence of calls
    reaches the topology service any more. *)
Theorem exhausted_budget_spares_service
  (cs : list Call) (m : Handler') (w : World) :
  maxRecoveryCnt m <= curRecoveryCnt m ->
  snd (run cs (m, w)) = w.
Proof.
  revert m w. induction cs as [|c cs IH]; intros m w Hle.
  - reflexivity.
  - rewrite run_step_cons.
    destruct (step_exhausted c m w Hle) as (_ & Hc & Hm).
    assert (Hw : snd (step c (m, w)) = w).
    { destruct c; simpl; try reflexivity.
      pose proof (Recovery_exhausted_world m info w Hle) as H.
      destruct (Recovery m info w) as [[r m'] w']. exact H. }
    destruct (step c (m, w)) as [m1 w1]. simpl in Hc, Hm, Hw. subst w1.
    apply IH. lia.
Qed.

(** *** When [Recovery] succeeds *)

Lemma run_reachable (cs : list Call) (m : Handler') (w : World) :
  reachable RecoveryAndGetTopo m ->
  reachable RecoveryAndGetTopo (fst (run cs (m, w))).
Proof.
  revert m w. induction cs as [|c cs IH]; intros m w Hr.
  - exact Hr.
  - rewrite run_step_cons.
    pose proof (reach_step RecoveryAndGetTopo m w c Hr) as Hr1.
    destruct (step c (m, w)) as [m1 w1]. apply IH. exact Hr1.
Qed.

(** X8. On a handler made by [NewRecoveryHandler] and used through any
    calls, [Recovery] returns nil exactly when the handler was made
    enabled and with the auto-scaler, fewer than 3 attempts have been
    charged, the request and its failure are not nil, the text of the
    failure contains "Memory limit", and the topology service asked to
    recover from a memory limit with the request's node count reports no
    error.  The attempt is then charged and the service has been called
    once. *)
Theorem Recovery_succeeds_iff
  (cs : list Call) (autoScaler : bool) (holderCap : Z) (enabled : bool)
  (parent : Tracker) (w0 : World) (info : option RecoveryInfo) (w : World) :
  let m :=
    fst (run cs
           (NewRecoveryHandler RecoveryAndGetTopo autoScaler holderCap
              enabled parent, w0)) in
  (outcome (Recovery m info w) = None <->
   enabled = true /\ autoScaler = true /\ curRecoveryCnt m < 3 /\
   exists i e,
     info = Some i /\ MPPErr i = Some e /\
     (exists pre post,
        Error e = (pre ++ memLimitErrPattern ++ post)%string) /\
     snd (fst (RecoveryAndGetTopo RecoveryTypeMemLimit (NodeCnt i) w))
     = None) /\
  (outcome (Recovery m info w) = None ->
   after (Recovery m info w) = charged m /\
   exists i,
     info = Some i /\
     world_after (Recovery m info w)
     = snd (RecoveryAndGetTopo RecoveryTypeMemLimit (NodeCnt i) w)).
Proof.
  cbv zeta.
  set (m0 := NewRecoveryHandler RecoveryAndGetTopo autoScaler holderCap
               enabled parent).
  set (m := fst (run cs (m0, w0))).
  destruct (run_frame cs m0 w0) as (Hen & Hhs & _).
  fold m in Hen, Hhs. simpl in Hen, Hhs.
  assert (Hr : reachable RecoveryAndGetTopo m)
    by (apply run_reachable, reach_new).
  destruct (reachable_counters RecoveryAndGetTopo m Hr) as [Hmax Hcur].
  assert (Hu : is_uint32 (curRecoveryCnt m) /\ is_uint32 (maxRecoveryCnt m))
    by (rewrite Hmax; unfold is_uint32; lia).
  destruct Hu as [Hu1 Hu2].
  unfold outcome, after, world_after.
  destruct enabled.
  2:{ rewrite (Recovery_disabled m info w Hen). simpl.
      split; [split|]; try discriminate.
      intros (H & _). discriminate. }
  destruct info as [i|].
  2:{ rewrite (Recovery_nil m None w Hen (or_introl eq_refl)). simpl.
      split; [split|]; try discriminate.
      intros (_ & _ & _ & i & e & H & _). discriminate. }
  destruct (MPPErr i) as [e|] eqn:Hi.
  2:{ rewrite (Recovery_nil m (Some i) w Hen);
        [|right; exists i; split; [reflexivity | exact Hi]].
      simpl. split; [split|]; try discriminate.
      intros (_ & _ & _ & i' & e & Hi' & He' & _).
      injection Hi' as <-. congruence. }
  destruct (Z.le_gt_cases (maxRecoveryCnt m) (curRecoveryCnt m)) as [Hle | Hlt].
  { rewrite (Recovery_exceeds m i e w Hen Hi Hle). simpl.
    split; [split|]; try discriminate.
    intros (_ & _ & Hc & _). lia. }
  rewrite (Recovery_charged m i e w Hu1 Hu2 Hen Hi Hlt), Hhs.
  cbn [scanHandlers memLimitHandler chooseHandlerImpl doRecovery fst snd].
  unfold memLimit_chooseHandlerImpl. cbn [newMemLimitHandlerImpl useAutoScaler].
  destruct (strings_Contains (Error e) memLimitErrPattern) eqn:Hc.
  2:{ cbn [andb scanHandlers fst snd]. split; [split|]; try discriminate.
      intros (_ & _ & _ & i' & e' & Hi' & He' & Hocc & _).
      injection Hi' as <-. rewrite Hi in He'. injection He' as <-.
      apply strings_Contains_occurs in Hocc. congruence. }
  destruct autoScaler.
  2:{ cbn [andb scanHandlers fst snd]. split; [split|]; try discriminate.
      intros (_ & H & _). discriminate. }
  cbn [andb]. rewrite memLimit_doRecovery_outcome. cbn [fst snd].
  split; [split|].
  - intros Hnone. repeat split; try lia.
    exists i, e. repeat split; try assumption.
    apply strings_Contains_occurs. exact Hc.
  - intros (_ & _ & _ & i' & e' & Hi' & _ & _ & Hnone).
    injection Hi' as <-. exact Hnone.
  - intros _. split; [reflexivity|]. exists i. split; reflexivity.
Qed.

(** *** Recovery attempts and holder calls do not interfere *)

(** X9. A call of [Recovery] and a call on the holder ([HoldResult],
    [PopFrontChk], [ResetHolder]) can be swapped: both orders leave the
    same handler and the same service, the holder call returns the same
    chunk and [Recovery] returns the same result. *)
Theorem Recovery_commutes_with_holder_calls
  (c : Call) (info : option RecoveryInfo) (m : Handler') (w : World) :
  is_recovery c = false ->
  run [CallRecovery info; c] (m, w) = run [c; CallRecovery info] (m, w) /\
  poppedBy c (fst (step (CallRecovery info) (m, w))) = poppedBy c m /\
  outcome (Recovery (fst (step c (m, w))) info w)
  = outcome (Recovery m info w).
Proof.
  intros Hc. unfold run, outcome. cbn [fold_left].
  destruct c; try discriminate; cbn [step poppedBy fst].
  - unfold Recovery, HoldResult. cbn [enable with_holder handlers
      curRecoveryCnt maxRecoveryCnt].
    destruct (enable m); simpl; [|repeat split].
    destruct info as [i|]; [|repeat split].
    destruct (MPPErr i) as [e|]; [|repeat split].
    destruct (maxRecoveryCnt m <=? curRecoveryCnt m); [repeat split|].
    destruct (scanHandlers (handlers m) e i w). repeat split.
  - unfold Recovery, PopFrontChk.
    destruct (enable m) eqn:He;
      destruct info as [i|];
      try destruct (MPPErr i) as [e|];
      try destruct (maxRecoveryCnt m <=? curRecoveryCnt m) eqn:Hle;
      try destruct (scanHandlers (handlers m) e i w) as [r w'] eqn:Hs;
      destruct (chks (holder m)) eqn:Hch;
      cbn -[to_uint32 to_int64];
      rewrite ?He, ?Hle, ?Hs, ?Hch; cbn -[to_uint32 to_int64];
      unfold PopFrontChk; cbn -[to_uint32 to_int64];
      rewrite ?He, ?Hle, ?Hs, ?Hch; repeat split.
  - unfold Recovery, ResetHolder. cbn [enable with_holder handlers
      curRecoveryCnt maxRecoveryCnt].
    destruct (enable m); simpl; [|repeat split].
    destruct info as [i|]; [|repeat split].
    destruct (MPPErr i) as [e|]; [|repeat split].
    destruct (maxRecoveryCnt m <=? curRecoveryCnt m); [repeat split|].
    destruct (scanHandlers (handlers m) e i w). repeat split.
Qed.

(** *** Classification by text *)

Lemma string_app_assoc (a b c : string) :
  ((a ++ b) ++ c)%string = (a ++ b ++ c)%string.
Proof.
  induction a as [|x a IH]; simpl; [reflexivity | rewrite IH; reflexivity].
Qed.

Lemma string_app_length (a b : string) :
  String.length (a ++ b)%string = (String.length a + String.length b)%nat.
Proof.
  induction a as [|x a IH]; simpl; [reflexivity | rewrite IH; reflexivity].
Qed.

(** X10. The memory-limit handler looks at the text only: a failure it
    chooses is still chosen when its text is wrapped in any prefix and
    suffix; a failure whose text is shorter than the 12 bytes of
    "Memory limit" is never chosen; without the auto-scaler no failure is
    chosen. *)
Theorem classification_by_text (h : memLimitHandlerImpl) (e : error) :
  (forall pre post : string,
     memLimit_chooseHandlerImpl h e = true ->
     memLimit_chooseHandlerImpl h
       (mkError (pre ++ Error e ++ post)%string) = true) /\
  ((String.length (Error e) < 12)%nat ->
     memLimit_chooseHandlerImpl h e = false) /\
  (useAutoScaler h = false -> memLimit_chooseHandlerImpl h e = false).
Proof.
  unfold memLimit_chooseHandlerImpl. split; [|split].
  - intros pre post.
    destruct (strings_Contains (Error e) memLimitErrPattern) eqn:Hc;
      [|discriminate].
    destruct (useAutoScaler h); [|discriminate]. intros _.
    apply strings_Contains_occurs in Hc as (p1 & p2 & Hc).
    assert (Hw : strings_Contains
                   (Error (mkError (pre ++ Error e ++ post)%string))
                   memLimitErrPattern = true).
    { apply strings_Contains_occurs.
      exists (pre ++ p1)%string, (p2 ++ post)%string.
      cbn [Error]. rewrite Hc.
      rewrite !string_app_assoc. reflexivity. }
    rewrite Hw. reflexivity.
  - intros Hlen.
    destruct (strings_Contains (Error e) memLimitErrPattern) eqn:Hc;
      [|reflexivity].
    apply strings_Contains_occurs in Hc as (p1 & p2 & Hc).
    rewrite Hc, !string_app_length in Hlen.
    change (String.length memLimitErrPattern) with 12%nat in Hlen. lia.
  - intros ->. rewrite andb_false_r. reflexivity.
Qed.

(** *** Draining *)

Lemma PopFrontChk_latched (m : Handler') :
  cannotHold (holder m) = true ->
  cannotHold (holder (snd (PopFrontChk m))) = true.
Proof.
  intros H.
  destruct (PopFrontChk_cases m)
    as [[-> _] | (chk & rest & _ & _ & _ & -> & _)]; [exact H | reflexivity].
Qed.

Lemma drained_holder (n : nat) (m : Handler') :
  enable m = true ->
  chks (holder (drained n m)) = skipn n (chks (holder m)) /\
  NumHoldRows (drained n m) = NumHoldRows m /\
  (cannotHold (holder m) = true ->
   cannotHold (holder (drained n m)) = true).
Proof.
  unfold drained. revert m. induction n as [|n IH]; intros m He.
  - repeat split. intros H. exact H.
  - cbn [drain].
    destruct (PopFrontChk_cases m)
      as [[Hp [Hd | Hc]] | (chk & rest & _ & Hc & Hf & Hh & He' & _)].
    + congruence.
    + rewrite Hp. destruct (IH m He) as (H1 & H2 & H3).
      rewrite Hc in *. rewrite skipn_nil in H1. repeat split; assumption.
    + destruct (PopFrontChk m) as [o m1] eqn:Hp. simpl in Hf, Hh, He'.
      subst o. destruct (IH m1 He') as (H1 & H2 & H3).
      destruct (drain n m1) as [out m2]. simpl in *.
      rewrite H1, Hh, Hc. unfold NumHoldRows in *. rewrite H2, Hh.
      repeat split. intros _. apply H3. rewrite Hh. reflexivity.
Qed.

(** X11. On an enabled handler that holds chunks, popping at least as many
    times as chunks are held returns all of them in the order they were
    held and leaves no chunk, so that a further pop returns nil; the row
    count is still what it was and [CanHoldResult()] is false: a drained
    holder does not accept results again before it is reset. *)
Theorem drain_all (n : nat) (m : Handler') :
  enable m = true ->
  chks (holder m) <> [] ->
  (List.length (chks (holder m)) <= n)%nat ->
  fst (drain n m) = chks (holder m) /\
  NumHoldChk (drained n m) = 0 /\
  fst (PopFrontChk (drained n m)) = None /\
  NumHoldRows (drained n m) = NumHoldRows m /\
  CanHoldResult (drained n m) = false.
Proof.
  intros He Hne Hlen.
  destruct (drained_holder n m He) as (Hchks & Hrows & _).
  rewrite skipn_all2 in Hchks by exact Hlen.
  split; [|split; [|split; [|split]]].
  - rewrite (drain_firstn n m He). apply firstn_all2. exact Hlen.
  - unfold NumHoldChk. rewrite Hchks. reflexivity.
  - rewrite (PopFrontChk_none _ (or_intror Hchks)). reflexivity.
  - exact Hrows.
  - destruct n as [|n]; [destruct (chks (holder m)); simpl in Hlen;
                          [now destruct Hne | lia]|].
    unfold drained. cbn [drain].
    destruct (PopFrontChk_cases m)
      as [[Hp [Hd | Hc]] | (chk & rest & _ & Hc & Hf & Hh & He' & _)].
    + congruence.
    + now destruct Hne.
    + destruct (PopFrontChk m) as [o m1] eqn:Hp. simpl in Hf, Hh, He'.
      subst o. destruct (drained_holder n m1 He') as (_ & _ & Hlatch).
      unfold drained in Hlatch.
      destruct (drain n m1) as [out m2]. simpl in *.
      unfold CanHoldResult. rewrite Hlatch by (rewrite Hh; reflexivity).
      apply andb_false_r.
Qed.

(** *** A reset holder behaves like a new one *)

Lemma HoldResult_same_holder (a b : Handler') (chk : Chunk) :
  capacity (holder a) = capacity (holder b) ->
  cannotHold (holder a) = cannotHold (holder b) ->
  curRows (holder a) = curRows (holder b) ->
  chks (holder a) = chks (holder b) ->
  capacity (holder (HoldResult a chk)) = capacity (holder (HoldResult b chk)) /\
  cannotHold (holder (HoldResult a chk))
  = cannotHold (holder (HoldResult b chk)) /\
  curRows (holder (HoldResult a chk)) = curRows (holder (HoldResult b chk)) /\
  chks (holder (HoldResult a chk)) = chks (holder (HoldResult b chk)).
Proof.
  intros H1 H2 H3 H4. simpl. rewrite H1, H2, H3, H4. repeat split.
Qed.

(** X12. After [ResetHolder], whatever the handler went through, holding
    any chunks gives the same row count, the same chunks held and the same
    answer of [CanHoldResult()] as on a new handler of the same capacity:
    a reset forgets the rows, the chunks and the latch, and nothing else
    of the holder decides these. *)
Theorem reset_holder_like_new
  (m : Handler') (cs : list Chunk) (autoScaler enabled : bool)
  (parent : Tracker) :
  let a := holdAll (ResetHolder m) cs in
  let b :=
    holdAll (NewRecoveryHandler RecoveryAndGetTopo autoScaler
               (capacity (holder m)) enabled parent) cs in
  NumHoldRows a = NumHoldRows b /\
  NumHoldChk a = NumHoldChk b /\
  chks (holder a) = chks (holder b) /\
  CanHoldResult a = CanHoldResult b.
Proof.
  cbv zeta.
  set (b0 := NewRecoveryHandler RecoveryAndGetTopo autoScaler
               (capacity (holder m)) enabled parent).
  assert (H : capacity (holder (holdAll (ResetHolder m) cs))
              = capacity (holder (holdAll b0 cs)) /\
              cannotHold (holder (holdAll (ResetHolder m) cs))
              = cannotHold (holder (holdAll b0 cs)) /\
              curRows (holder (holdAll (ResetHolder m) cs))
              = curRows (holder (holdAll b0 cs)) /\
              chks (holder (holdAll (ResetHolder m) cs))
              = chks (holder (holdAll b0 cs))).
  { induction cs as [|chk cs IH] using rev_ind.
    - repeat split.
    - rewrite !holdAll_snoc. destruct IH as (H1 & H2 & H3 & H4).
      apply HoldResult_same_holder; assumption. }
  destruct H as (H1 & H2 & H3 & H4).
  unfold NumHoldRows, NumHoldChk, CanHoldResult.
  rewrite H1, H2, H3, H4. repeat split.
Qed.

(** *** Values stay in the range of their types *)


End FurtherProperties.

(** ** Further examples *)

(** X2 on scenario A without reset: both chunks come back, in order, and
    none is left. *)
Lemma chunks_conserved_example :
  popped sampleCallsNoReset (sampleNew false 100 true, 0%nat)
  ++ chks (holder (fst (run sampleCallsNoReset
                          (sampleNew false 100 true, 0%nat))))
  = [chunk60; chunk50] /\
  popped sampleCallsNoReset (sampleNew false 100 true, 0%nat)
  = [chunk60; chunk50].
Proof.
  split.
  - exact (chunks_conserved sampleCallsNoReset (sampleNew false 100 true)
             0%nat eq_refl).
  - reflexivity.
Defined.

Lemma sampleCalls_memOk : Forall callMemOk sampleCalls.
Proof.
  repeat constructor; unfold memOk; simpl; lia.
Defined.

(** X3 on [sampleCalls]: after the reset one chunk of 1600 bytes is held
    and 1600 bytes are charged. *)
Lemma tracker_balanced_example :
  let m := fst (run sampleCalls (sampleNew true 100 true, 0%nat)) in
  consumedSinceDetach (calls (memTracker (holder m))) = 1600 /\
  chks (holder m) = [chunk50].
Proof.
  cbv zeta. split; [|reflexivity].
  exact (eq_trans
           (tracker_balanced sampleService sampleCalls true 100 true
              sampleParent 0%nat sampleCalls_memOk)
           eq_refl).
Defined.

(** X4 on scenario A: 60 rows are fewer than 100, 110 rows are not. *)
Lemma CanHoldResult_after_holds_example :
  CanHoldResult (holdAll (sampleNew false 100 true) [chunk60]) = true /\
  CanHoldResult (holdAll (sampleNew false 100 true) [chunk60; chunk50])
  = false.
Proof.
  split.
  - rewrite (CanHoldResult_after_holds (sampleNew false 100 true) [chunk60]);
      [reflexivity | reflexivity | reflexivity | | vm_compute; reflexivity].
    repeat constructor; simpl; lia.
  - rewrite (CanHoldResult_after_holds (sampleNew false 100 true)
               [chunk60; chunk50]);
      [reflexivity | reflexivity | reflexivity | | vm_compute; reflexivity].
    repeat constructor; simpl; lia.
Defined.

(** X5 with capacity 0. *)
Lemma zero_capacity_never_holds_example :
  CanHoldResult (sampleNew true 0 true) = false /\
  CanHoldResult (fst (run sampleCalls (sampleNew true 0 true, 0%nat)))
  = false.
Proof.
  split.
  - exact (zero_capacity_never_holds [] (sampleNew true 0 true) 0%nat
             eq_refl).
  - exact (zero_capacity_never_holds sampleCalls (sampleNew true 0 true)
             0%nat eq_refl).
Defined.

(** X6 on scenario A with the switch off: nothing is popped, the two
    chunks stay in the holder. *)
Lemma disabled_handler_inert_example :
  let m' := fst (run sampleCallsNoReset (sampleNew true 100 false, 0%nat)) in
  popped sampleCallsNoReset (sampleNew true 100 false, 0%nat) = [] /\
  snd (run sampleCallsNoReset (sampleNew true 100 false, 0%nat)) = 0%nat /\
  curRecoveryCnt m' = 0 /\
  Recovery m' (Some memLimitInfo) 0%nat = (Some errNotEnabled, m', 0%nat) /\
  chks (holder m') = [chunk60; chunk50].
Proof.
  cbv zeta.
  destruct (disabled_handler_inert sampleCallsNoReset
              (sampleNew true 100 false) 0%nat eq_refl)
    as (Hpop & Hw & Hcnt & Hrec & _ & Hheld).
  split; [exact Hpop|]. split; [exact Hw|]. split; [exact Hcnt|].
  split; [apply Hrec | exact (Hheld eq_refl)].
Defined.

(** X7: with the three attempts used, requests that the memory-limit
    handler would take do not reach the service. *)
Lemma exhausted_budget_spares_service_example :
  curRecoveryCnt sampleExhaustedScaler = 3 /\
  snd (run [CallRecovery (Some memLimitInfo); CallResetHolder;
            CallRecovery (Some memLimitInfo)]
         (sampleExhaustedScaler, 0%nat)) = 0%nat.
Proof.
  split; [reflexivity|].
  apply exhausted_budget_spares_service. vm_compute. discriminate.
Defined.

(** X8 on a new handler with the auto-scaler: a memory-limit failure on
    two nodes is recovered; the same failure on zero nodes is not, since
    the service fails. *)
Lemma Recovery_succeeds_iff_example :
  outcome (Recovery (sampleNew true 100 true) (Some memLimitInfo) 0%nat)
  = None /\
  outcome (Recovery (sampleNew true 100 true)
             (Some (mkInfo (Some memLimitFailure) 0)) 0%nat) <> None.
Proof.
  split.
  - destruct (Recovery_succeeds_iff sampleService [] true 100 true
                sampleParent 0%nat (Some memLimitInfo) 0%nat)
      as [[_ Hback] _].
    apply Hback.
    split; [reflexivity|]. split; [reflexivity|].
    split; [simpl; lia|].
    exists memLimitInfo, memLimitFailure.
    split; [reflexivity|]. split; [reflexivity|].
    split; [exact memLimitFailure_text | reflexivity].
  - intros H.
    destruct (Recovery_succeeds_iff sampleService [] true 100 true
                sampleParent 0%nat (Some (mkInfo (Some memLimitFailure) 0))
                0%nat) as [[Hfwd _] _].
    destruct (Hfwd H) as (_ & _ & _ & i & e & Hi & _ & _ & Hsvc).
    injection Hi as <-. discriminate.
Defined.

(** X9: a pop and a successful recovery, in both orders. *)
Lemma Recovery_commutes_with_holder_calls_example :
  run [CallRecovery (Some memLimitInfo); CallPopFrontChk]
    (HoldResult (sampleNew true 100 true) chunk60, 0%nat)
  = run [CallPopFrontChk; CallRecovery (Some memLimitInfo)]
      (HoldResult (sampleNew true 100 true) chunk60, 0%nat) /\
  snd (run [CallPopFrontChk; CallRecovery (Some memLimitInfo)]
         (HoldResult (sampleNew true 100 true) chunk60, 0%nat)) = 1%nat.
Proof.
  split; [|reflexivity].
  destruct (Recovery_commutes_with_holder_calls CallPopFrontChk
              (Some memLimitInfo)
              (HoldResult (sampleNew true 100 true) chunk60) 0%nat eq_refl)
    as (Hswap & _).
  exact Hswap.
Defined.

(** X10: the sample failure wrapped in more text, and a short text. *)
Lemma classification_by_text_example :
  memLimit_chooseHandlerImpl (newMemLimitHandlerImpl true)
    (mkError ("[tiflash] " ++ Error memLimitFailure ++ ": retry")%string)
  = true /\
  memLimit_chooseHandlerImpl (newMemLimitHandlerImpl true) (mkError "")
  = false.
Proof.
  split.
  - destruct (classification_by_text (newMemLimitHandlerImpl true)
                memLimitFailure) as (Hwrap & _).
    apply Hwrap. reflexivity.
  - destruct (classification_by_text (newMemLimitHandlerImpl true)
                (mkError "")) as (_ & Hshort & _).
    apply Hshort. simpl. lia.
Defined.

(** X11 on scenario A: five pops return the two chunks; the holder is
    empty, still counts 110 rows and cannot hold. *)
Lemma drain_all_example :
  fst (drain 5 sampleHeld110) = [chunk60; chunk50] /\
  NumHoldChk (drained 5 sampleHeld110) = 0 /\
  fst (PopFrontChk (drained 5 sampleHeld110)) = None /\
  NumHoldRows (drained 5 sampleHeld110) = 110 /\
  CanHoldResult (drained 5 sampleHeld110) = false.
Proof.
  apply (drain_all 5 sampleHeld110).
  - reflexivity.
  - discriminate.
  - simpl. lia.
Defined.

